(** * Resumable consumption engine of the Kinesis and SQS ingesters

    A shallow embedding of the Kinesis ingester's per-shard consumer,
    checkpoint store ([stateman]) and metrics ([shardMetrics]), and of the
    SQS ingester's [queueRunner], followed by the properties of the
    specification that concern them. *)

From Stdlib Require Import ZArith Lia.
From stdpp Require Import gmap strings list fin_maps.

Local Open Scope string_scope.
Local Open Scope list_scope.
Local Open Scope Z_scope.

(** ** Machine integers

    Go's [int64], [uint64] and (on the 64-bit targets the ingesters are built
    for) [int] are 64 bits wide; arithmetic wraps around silently. *)

Definition uint64_wrap (z : Z) : Z := z mod 2 ^ 64.
Definition int64_wrap (z : Z) : Z := (z + 2 ^ 63) mod 2 ^ 64 - 2 ^ 63.

(** [a / b] on [int64]: truncated division; a zero divisor is a run-time
    panic, rendered as [None]. *)
Definition int64_div (a b : Z) : option Z :=
  if decide (b = 0) then None else Some (int64_wrap (Z.quot a b)).

(** ** Data of the Kinesis SDK, as far as the ingester reads it *)

(** [time.Time] values are only passed around, never inspected. *)
Definition Time := Z.

(** The SDK hands out its fields as pointers.  The fields the ingesters
    dereference without a test ([SequenceNumber], [Data],
    [ApproximateArrivalTimestamp], [MillisBehindLatest], [ShardId], [Body])
    are taken as set; the ones they test against nil are options. *)

Record Record_ := mkRecord {
  SequenceNumber : string;
  Data : list Byte.byte;
  ApproximateArrivalTimestamp : Time;
}.

Record GetRecordsOutput := mkGetRecordsOutput {
  Records : list Record_;
  NextShardIterator : option string;
  MillisBehindLatest : Z;
}.

(** ** Checkpoint store: [stateman] *)

Module Stateman.

(** [states] is the in-memory map of stream name to shard name to sequence
    number; [stateFile] is what the state file on disk holds, that is the map
    handed to the last [stateFile.Write]. *)
Record stateman := mkStateman {
  states : gmap string (gmap string string);
  stateFile : gmap string (gmap string string);
}.

(** [NewStateman]: an empty map, overwritten by what the state file holds. *)
Definition NewStateman (file : gmap string (gmap string string)) : stateman :=
  mkStateman file file.

Definition Flush (s : stateman) : stateman :=
  mkStateman (states s) (states s).

Definition Close (s : stateman) : stateman := Flush s.

(** [s.states[stream]] with the "comma ok" flag dropped in favour of an
    initialisation of the inner map. *)
Definition init_stream (stream : string) (m : gmap string (gmap string string))
  : gmap string (gmap string string) :=
  match m !! stream with
  | Some _ => m
  | None => <[stream := ∅]> m
  end.

(** Indexing a Go map at a missing key yields the zero value. *)
Definition index2 (m : gmap string (gmap string string)) (stream shard : string)
  : string :=
  default EmptyString (default ∅ (m !! stream) !! shard).

Definition UpdateSequenceNum (stream shard seq : string) (s : stateman)
  : stateman :=
  let m := init_stream stream (states s) in
  mkStateman (<[stream := <[shard := seq]> (default ∅ (m !! stream))]> m)
             (stateFile s).

Definition GetSequenceNum (stream shard : string) (s : stateman)
  : stateman * string :=
  let m := init_stream stream (states s) in
  (mkStateman m (stateFile s), index2 m stream shard).

(** The token a restart would find: the one in the state file. *)
Definition persisted (stream shard : string) (s : stateman) : string :=
  index2 (stateFile s) stream shard.

(** The token held in memory. *)
Definition current (stream shard : string) (s : stateman) : string :=
  index2 (states s) stream shard.

End Stateman.

(** ** Metrics: [shardMetrics] and the reporter *)

Module Metrics.

Record shardMetrics := mkShardMetrics {
  Disabled : bool;
  millisbehind : Z;
  datasize : Z;
  entrysize : Z;
  requests : Z;
}.

(** The tracker a shard goroutine registers: [shardMetrics{}], disabled when
    the stream's [Metrics_Interval] is zero. *)
Definition newTracker (interval : Z) : shardMetrics :=
  mkShardMetrics (bool_decide (interval = 0)) 0 0 0 0.

Definition dsize_of (recs : list Record_) : Z :=
  fold_left (fun acc r => int64_wrap (acc + Z.of_nat (length (Data r)))) recs 0.

Definition Update (res : GetRecordsOutput) (entrySize : Z) (s : shardMetrics)
  : shardMetrics :=
  if Disabled s then s
  else
    mkShardMetrics (Disabled s)
      (MillisBehindLatest res)
      (uint64_wrap (datasize s + uint64_wrap (dsize_of (Records res))))
      (uint64_wrap (entrysize s + uint64_wrap entrySize))
      (uint64_wrap (requests s + 1)).

(** Returns [(millis, datasize, entrysize, requests)] and the sample as the
    call leaves it. *)
Definition ReadAndReset (s : shardMetrics) : (Z * Z * Z * Z) * shardMetrics :=
  ((millisbehind s, datasize s, entrysize s, requests s),
   mkShardMetrics (Disabled s) (millisbehind s) 0 0 0).

Record metricsReport := mkMetricsReport {
  StreamName : string;
  ShardCount : Z;
  AverageLag : Z;
  CompressedDataSize : Z;
  EntryDataSize : Z;
  KinesisRequests : Z;
}.

(** The [for i := range metricsTrackers] loop of the reporter: drains every
    tracker into the report. *)
Fixpoint drain (report : metricsReport) (trackers : list shardMetrics)
  : metricsReport * list shardMetrics :=
  match trackers with
  | [] => (report, [])
  | t :: rest =>
      let '((l, b, e, r), t') := ReadAndReset t in
      let report' :=
        mkMetricsReport (StreamName report) (ShardCount report)
          (int64_wrap (AverageLag report + l))
          (uint64_wrap (CompressedDataSize report + b))
          (uint64_wrap (EntryDataSize report + e))
          (uint64_wrap (KinesisRequests report + r)) in
      let '(final, rest') := drain report' rest in
      (final, t' :: rest')
  end.

(** One firing of the reporter's timer.  [None] is the run-time panic of the
    integer division. *)
Definition reportTick (stream_name : string) (nshards : nat)
    (trackers : list shardMetrics) : option (metricsReport * list shardMetrics) :=
  let report := mkMetricsReport stream_name (Z.of_nat nshards) 0 0 0 0 in
  let '(report, trackers') := drain report trackers in
  match int64_div (AverageLag report) (Z.of_nat (length trackers)) with
  | None => None
  | Some avg =>
      Some (mkMetricsReport (StreamName report) (ShardCount report) avg
              (CompressedDataSize report) (EntryDataSize report)
              (KinesisRequests report),
            trackers')
  end.

End Metrics.

(** ** Entries and the collaborators of the consumers *)

Record Timestamp := mkTimestamp { Sec : Z; Nsec : Z }.

(** The zero value of [entry.Timestamp]. *)
Definition zeroTimestamp : Timestamp := mkTimestamp 0 0.

(** [net.IP]: [None] is the nil address. *)
Definition IP := option (list Byte.byte).

Record Entry := mkEntry {
  TS : Timestamp;
  SRC : IP;
  Tag : Z;
  EntData : list Byte.byte;
}.

Inductive error :=
| AwsError (code message : string)
| PlainError (text : string).

(** The processor set, the time grinder, the clock and the helpers of the
    packages [entry] and [strconv] are outside the ingesters; each is taken
    with a state of its own where it has one, and with the signature the
    ingesters call it at. *)
Class ProcessorSet (P : Type) := {
  ProcessContext : P -> Entry -> P * option error;
  ProcClose : P -> P * option error;
}.

Class TimeGrinder (TG : Type) := {
  Extract : TG -> list Byte.byte -> TG * (Time * bool * option error);
}.

Class EntryLib := {
  FromStandard : Time -> Timestamp;
  UnixTime : Z -> Z -> Timestamp;
  EntrySize : Entry -> Z;
}.

Class Clock (K : Type) := {
  Now : K -> K * Timestamp;
}.

(** [strconv.ParseInt(s, 10, 64)]; [None] when it returns an error. *)
Class Strconv := {
  ParseInt : string -> option Z;
}.

(** ** The per-shard consumer of the Kinesis ingester *)

Module Shard.

Definition ErrCodeProvisionedThroughputExceededException : string :=
  "ProvisionedThroughputExceededException".
Definition ErrCodeExpiredIteratorException : string :=
  "ExpiredIteratorException".

Record SequenceNumberRange_ := mkRange {
  RangeStartingSequenceNumber : option string;
  EndingSequenceNumber : option string;
}.

Record Shard_ := mkShard {
  ShardId : string;
  SequenceNumberRange : option SequenceNumberRange_;
}.

(** The test of the "detect and skip closed shards" guard. *)
Definition closed (sh : Shard_) : bool :=
  match SequenceNumberRange sh with
  | Some r => bool_decide (is_Some (EndingSequenceNumber r))
  | None => false
  end.

Record streamDef := mkStreamDef {
  Stream_Name : string;
  Iterator_Type : string;
  Parse_Time : bool;
  Metrics_Interval : Z;
}.

Record GetShardIteratorInput := mkGsii {
  gsiiShardId : option string;
  gsiiStreamName : option string;
  ShardIteratorType : option string;
  StartingSequenceNumber : option string;
}.

Record GetShardIteratorOutput := mkGsio { ShardIterator : option string }.

Record GetRecordsInput := mkGri {
  Limit : option Z;
  griShardIterator : option string;
}.

(** What the two calls to the service hand back: [(output, err)] for
    [GetShardIterator], [(res, err)] with a possibly nil [res] for
    [GetRecords]. *)
Definition GetShardIteratorResult : Type := GetShardIteratorOutput * option error.
Definition GetRecordsResult : Type := option GetRecordsOutput * option error.

Inductive LogLine :=
| LgShardError (shardid : nat) (shard : string) (e : error)
| LgNilIterator
| LgThroughputExceeded
| LgIteratorExpired
| LgAwsError (code message : string)
| LgUnknownError (e : error)
| LgHandleEntry (e : error)
| LgCloseProcessor (e : error).

(** What a consumer does that another component can observe, in order. *)
Inductive Event :=
| EvGetSequenceNum (stream shard : string)
| EvGetShardIterator (gsii : GetShardIteratorInput)
| EvGetRecords (gri : GetRecordsInput)
| EvSleep (milliseconds : Z)
| EvLog (l : LogLine)
| EvExtract (data : list Byte.byte) (ts : Time) (ok : bool) (err : option error)
| EvProcess (ent : Entry)
| EvTrackerUpdate (res : GetRecordsOutput) (entrySize : Z)
| EvUpdateSequenceNum (stream shard seq : string)
| EvProcClose.

(** Where the goroutine stands between two calls to the service.  The
    Streaming state of the specification is [Streaming] and [Retrying]
    together: both are inside [for running]. *)
Inductive Phase :=
| Acquiring
    (* top of [reconnectLoop] *)
| Streaming (iter lastSeqNum : string)
    (* at the test of [for running] *)
| Retrying (gri : GetRecordsInput) (iter lastSeqNum : string)
    (* inside the inner [for], after a failed [GetRecords] *)
| Closed
    (* the goroutine returned *)
| Panicked.
    (* nil dereference of [res] *)

Section Consumer.
Context {P TG : Type} `{!ProcessorSet P, !TimeGrinder TG, !EntryLib}.

Record Consumer := mkConsumer {
  stream : streamDef;
  shard : Shard_;
  shardid : nat;
  tagid : Z;
  src : IP;
  tg : TG;
  procset : P;
  tracker : Metrics.shardMetrics;
  stateMan : Stateman.stateman;
  phase : Phase;
}.

Definition set_phase (ph : Phase) (c : Consumer) : Consumer :=
  mkConsumer (stream c) (shard c) (shardid c) (tagid c) (src c) (tg c)
    (procset c) (tracker c) (stateMan c) ph.

Definition set_stateMan (sm : Stateman.stateman) (c : Consumer) : Consumer :=
  mkConsumer (stream c) (shard c) (shardid c) (tagid c) (src c) (tg c)
    (procset c) (tracker c) sm (phase c).

Definition set_Parse_Time (b : bool) (s : streamDef) : streamDef :=
  mkStreamDef (Stream_Name s) (Iterator_Type s) b (Metrics_Interval s).

(** The goroutine as it reaches [reconnectLoop] for the first time. *)
Definition newConsumer (st : streamDef) (sh : Shard_) (i : nat) (tag : Z)
    (ip : IP) (grinder : TG) (ps : P) (sm : Stateman.stateman) : Consumer :=
  mkConsumer st sh i tag ip grinder ps
    (Metrics.newTracker (Metrics_Interval st)) sm Acquiring.

(** *** Acquiring an iterator *)

(** The request built at the top of [reconnectLoop], with the checkpoint
    store as [GetSequenceNum] leaves it.  The [debugout] line is left out. *)
Definition acquireRequest (c : Consumer)
  : Stateman.stateman * GetShardIteratorInput :=
  let '(sm, seqnum) :=
    Stateman.GetSequenceNum (Stream_Name (stream c)) (ShardId (shard c))
      (stateMan c) in
  (sm,
   if decide (seqnum = EmptyString)
   then mkGsii (Some (ShardId (shard c))) (Some (Stream_Name (stream c)))
          (Some (Iterator_Type (stream c))) None
   else mkGsii (Some (ShardId (shard c))) (Some (Stream_Name (stream c)))
          (Some "AFTER_SEQUENCE_NUMBER") (Some seqnum)).

Definition acquire (r : GetShardIteratorResult) (c : Consumer)
  : Consumer * list Event :=
  let '(sm, gsii) := acquireRequest c in
  let c := set_stateMan sm c in
  let asked :=
    [EvGetSequenceNum (Stream_Name (stream c)) (ShardId (shard c));
     EvGetShardIterator gsii] in
  match r with
  | (_, Some err) =>
      (c, asked ++ [EvLog (LgShardError (shardid c) (ShardId (shard c)) err);
                    EvSleep 5000])
  | (output, None) =>
      match ShardIterator output with
      | None => (c, asked ++ [EvLog LgNilIterator; EvSleep 5000])
      | Some iter => (set_phase (Streaming iter EmptyString) c, asked)
      end
  end.

(** *** Handling one batch *)

(** What the [for _, r := range res.Records] loop carries from one record to
    the next. *)
Record LoopState := mkLoop {
  lParse : bool;      (* stream.Parse_Time *)
  lTg : TG;
  lProc : P;
  lLast : string;     (* lastSeqNum *)
  lSize : Z;          (* entrySize *)
}.

(** The timestamp selection of the loop body: the time stamp of the entry,
    the flag and the grinder afterwards, and the call of [tg.Extract] with
    what it returned, if it ran. *)
Definition chooseTS (r : Record_) (parse : bool) (g : TG)
  : Timestamp * bool * TG * list Event :=
  if negb parse then
    (FromStandard (ApproximateArrivalTimestamp r), parse, g, [])
  else
    let '(g', (ts, ok, err)) := Extract g (Data r) in
    if negb ok || bool_decide (err <> None) then
      (* something went wrong, switch to using kinesis timestamps *)
      (FromStandard (ApproximateArrivalTimestamp r), false, g',
       [EvExtract (Data r) ts ok err])
    else
      (FromStandard ts, parse, g', [EvExtract (Data r) ts ok err]).

(** The body of the loop.  [ent.Size()] is taken of the entry as it was
    built. *)
Definition handleRecord (tag : Z) (ip : IP) (r : Record_) (l : LoopState)
  : LoopState * list Event :=
  let '(ts, parse, g, evs) := chooseTS r (lParse l) (lTg l) in
  let ent := mkEntry ts ip tag (Data r) in
  let '(ps, perr) := ProcessContext (lProc l) ent in
  let logged :=
    match perr with
    | Some e => [EvLog (LgHandleEntry e)]
    | None => []
    end in
  (mkLoop parse g ps (SequenceNumber r)
     (int64_wrap (lSize l + int64_wrap (EntrySize ent))),
   evs ++ EvProcess ent :: logged).

Fixpoint handleRecords (tag : Z) (ip : IP) (recs : list Record_) (l : LoopState)
  : LoopState * list Event :=
  match recs with
  | [] => (l, [])
  | r :: rest =>
      let '(l1, ev1) := handleRecord tag ip r l in
      let '(l2, ev2) := handleRecords tag ip rest l1 in
      (l2, ev1 ++ ev2)
  end.

(** Everything from [var entrySize int] to the end of the body of
    [for running]: the records, the metrics, the checkpoint. *)
Definition handleBatch (res : GetRecordsOutput) (iter lastSeqNum : string)
    (c : Consumer) : Consumer * list Event :=
  let '(l, evs) :=
    handleRecords (tagid c) (src c) (Records res)
      (mkLoop (Parse_Time (stream c)) (tg c) (procset c) lastSeqNum 0) in
  let sname := Stream_Name (stream c) in
  let sid := ShardId (shard c) in
  let '(sm, written) :=
    if decide (lLast l = EmptyString) then (stateMan c, [])
    else (Stateman.UpdateSequenceNum sname sid (lLast l) (stateMan c),
          [EvUpdateSequenceNum sname sid (lLast l)]) in
  (mkConsumer (set_Parse_Time (lParse l) (stream c)) (shard c) (shardid c)
     (tagid c) (src c) (lTg l) (lProc l)
     (Metrics.Update res (lSize l) (tracker c)) sm
     (Streaming iter (lLast l)),
   evs ++ EvTrackerUpdate res (lSize l) :: written).

(** *** One call of [GetRecords] and what follows it *)

(** [iter] after the [if res != nil] test that follows the call. *)
Definition nextIter (res : option GetRecordsOutput) (iter : string) : string :=
  match res with
  | Some r => default iter (NextShardIterator r)
  | None => iter
  end.

Definition fetch (gri : GetRecordsInput) (iter lastSeqNum : string)
    (r : GetRecordsResult) (c : Consumer) : Consumer * list Event :=
  let '(res, err) := r in
  let iter := nextIter res iter in
  match err with
  | Some (AwsError code message) =>
      if decide (code = ErrCodeProvisionedThroughputExceededException) then
        (set_phase (Retrying gri iter lastSeqNum) c,
         [EvGetRecords gri; EvLog LgThroughputExceeded; EvSleep 500])
      else if decide (code = ErrCodeExpiredIteratorException) then
        (set_phase Acquiring c,
         [EvGetRecords gri; EvLog LgIteratorExpired; EvSleep 100])
      else
        (set_phase (Retrying gri iter lastSeqNum) c,
         [EvGetRecords gri; EvLog (LgAwsError code message); EvSleep 500])
  | Some e =>
      (set_phase (Retrying gri iter lastSeqNum) c,
       [EvGetRecords gri; EvLog (LgUnknownError e)])
  | None =>
      match res with
      | None => (set_phase Panicked c, [EvGetRecords gri])
      | Some out =>
          (* if we got no records, chill for a sec before we hit it again *)
          let idle :=
            if decide (length (Records out) = 0%nat) then [EvSleep 100]
            else [] in
          let '(c', evs) := handleBatch out iter lastSeqNum c in
          (c', EvGetRecords gri :: idle ++ evs)
      end
  end.

(** Leaving [for running]: the processor set is closed and the goroutine
    ends. *)
Definition shutdown (c : Consumer) : Consumer * list Event :=
  let '(ps, err) := ProcClose (procset c) in
  (mkConsumer (stream c) (shard c) (shardid c) (tagid c) (src c) (tg c) ps
     (tracker c) (stateMan c) Closed,
   EvProcClose ::
     match err with
     | Some e => [EvLog (LgCloseProcessor e)]
     | None => []
     end).

(** *** The goroutine, one call to the outside at a time *)

(** What the outside offers at one step: the value of [running] as the
    goroutine reads it, and the answer the service gives to the call the
    goroutine makes. *)
Record Env := mkEnv {
  running : bool;
  iterResult : GetShardIteratorResult;
  recordsResult : GetRecordsResult;
}.

Definition step (e : Env) (c : Consumer) : Consumer * list Event :=
  match phase c with
  | Acquiring => acquire (iterResult e) c
  | Streaming iter lastSeqNum =>
      if running e then
        fetch (mkGri (Some 5000) (Some iter)) iter lastSeqNum
          (recordsResult e) c
      else shutdown c
  | Retrying gri iter lastSeqNum => fetch gri iter lastSeqNum (recordsResult e) c
  | Closed | Panicked => (c, [])
  end.

(** The consumer interleaved with the periodic flush of the checkpoint
    store, which runs in a goroutine of its own. *)
Inductive Tick :=
| Source (e : Env)
| FlushTimer.

Definition tick (t : Tick) (c : Consumer) : Consumer * list Event :=
  match t with
  | Source e => step e c
  | FlushTimer => (set_stateMan (Stateman.Flush (stateMan c)) c, [])
  end.

Fixpoint run (ts : list Tick) (c : Consumer) : Consumer * list Event :=
  match ts with
  | [] => (c, [])
  | t :: rest =>
      let '(c1, ev1) := tick t c in
      let '(c2, ev2) := run rest c1 in
      (c2, ev1 ++ ev2)
  end.

(** *** Reading a consumer and its trace *)

(** The request the next [GetRecords] carries, for a consumer that is inside
    [for running]. *)
Definition nextRequest (c : Consumer) : option GetRecordsInput :=
  match phase c with
  | Streaming iter _ => Some (mkGri (Some 5000) (Some iter))
  | Retrying gri _ _ => Some gri
  | _ => None
  end.

(** Whether the step taken against [e] calls [GetRecords]. *)
Definition fetches (e : Env) (c : Consumer) : bool :=
  match phase c with
  | Streaming _ _ => running e
  | Retrying _ _ _ => true
  | _ => false
  end.

(** [lastSeqNum], where the variable is in scope. *)
Definition lastSeqNumOf (c : Consumer) : option string :=
  match phase c with
  | Streaming _ l | Retrying _ _ l => Some l
  | _ => None
  end.

(** The token the checkpoint store holds in memory for the consumer's
    shard, and the one the state file holds. *)
Definition storedToken (c : Consumer) : string :=
  Stateman.current (Stream_Name (stream c)) (ShardId (shard c)) (stateMan c).

Definition persistedToken (c : Consumer) : string :=
  Stateman.persisted (Stream_Name (stream c)) (ShardId (shard c)) (stateMan c).

(** The tokens written by the calls of [UpdateSequenceNum] in a trace. *)
Fixpoint checkpointWrites (evs : list Event) : list string :=
  match evs with
  | [] => []
  | EvUpdateSequenceNum _ _ seq :: rest => seq :: checkpointWrites rest
  | _ :: rest => checkpointWrites rest
  end.

(** The entries handed to the processor set in a trace. *)
Fixpoint processed (evs : list Event) : list Entry :=
  match evs with
  | [] => []
  | EvProcess ent :: rest => ent :: processed rest
  | _ :: rest => processed rest
  end.

Fixpoint sleeps (evs : list Event) : list Z :=
  match evs with
  | [] => []
  | EvSleep ms :: rest => ms :: sleeps rest
  | _ :: rest => sleeps rest
  end.

(** The records the service delivers over a run. *)
Definition delivered (t : Tick) : list Record_ :=
  match t with
  | Source e =>
      match recordsResult e with
      | (Some out, _) => Records out
      | _ => []
      end
  | FlushTimer => []
  end.

(** The entry of record [r] with the time stamp of the record's metadata. *)
Definition sourceStamped (tag : Z) (ip : IP) (r : Record_) : Entry :=
  mkEntry (FromStandard (ApproximateArrivalTimestamp r)) ip tag (Data r).

(** A call of [tg.Extract] that did not yield a time stamp. *)
Definition failedExtract (ev : Event) : bool :=
  match ev with
  | EvExtract _ _ ok err => negb ok || bool_decide (err <> None)
  | _ => false
  end.

(** An event of a consumer that no longer parses time stamps: not a call of
    [tg.Extract], and if an entry is handed over, it is the entry of one of
    the records of [pool] with the time stamp of the record's metadata. *)
Definition fallenBack (tag : Z) (ip : IP) (pool : list Record_) (ev : Event)
  : Prop :=
  match ev with
  | EvExtract _ _ _ _ => False
  | EvProcess ent => exists r, r ∈ pool /\ ent = sourceStamped tag ip r
  | _ => True
  end.

(** The data a call of [tg.Extract] was given. *)
Definition extractedData (ev : Event) : option (list Byte.byte) :=
  match ev with
  | EvExtract data _ _ _ => Some data
  | _ => None
  end.

(** Every failed extraction of the trace is followed at once by the
    hand-over of the source-stamped entry of the same record, and by nothing
    but [fallenBack] events. *)
Fixpoint settled (tag : Z) (ip : IP) (pool : list Record_) (evs : list Event)
  : Prop :=
  match evs with
  | [] => True
  | ev :: rest =>
      (failedExtract ev = true ->
       (exists r rest',
          r ∈ pool /\ extractedData ev = Some (Data r) /\
          rest = EvProcess (sourceStamped tag ip r) :: rest') /\
       Forall (fallenBack tag ip pool) rest) /\
      settled tag ip pool rest
  end.

(** How a stretch of trace relates the flag [Parse_Time] before it ([parse])
    to the flag after it ([parse']): the stretch is [settled], a failed
    extraction in it leaves the flag off, and a flag that is off stays off
    while the stretch has only [fallenBack] events. *)
Definition fallsBack (tag : Z) (ip : IP) (pool : list Record_)
    (parse parse' : bool) (evs : list Event) : Prop :=
  settled tag ip pool evs /\
  (existsb failedExtract evs = true -> parse' = false) /\
  (parse = false -> parse' = false /\ Forall (fallenBack tag ip pool) evs).

(** The invariant that ties [lastSeqNum] to the checkpoint store. *)
Definition tokenInSync (c : Consumer) : Prop :=
  match lastSeqNumOf c with
  | Some l => l = EmptyString \/ storedToken c = l
  | None => True
  end.

(** What a consumer is throughout its run. *)
Definition sameIdentity (c c' : Consumer) : Prop :=
  Stream_Name (stream c') = Stream_Name (stream c) /\
  shard c' = shard c /\ tagid c' = tagid c /\ src c' = src c.

(** An event that is neither an extraction, nor a hand-over, nor a
    checkpoint write. *)
Definition quiet (ev : Event) : Prop :=
  match ev with
  | EvExtract _ _ _ _ | EvProcess _ | EvUpdateSequenceNum _ _ _ => False
  | _ => True
  end.

(** A step that gets a batch: it calls [GetRecords] and the call succeeds. *)
Definition getsBatch (e : Env) (c : Consumer) (out : GetRecordsOutput) : Prop :=
  fetches e c = true /\ recordsResult e = (Some out, None).

(** The events of the write guard at the end of a batch. *)
Definition writeEvents (c : Consumer) (lastSeqNum : string) : list Event :=
  if decide (lastSeqNum = EmptyString) then []
  else [EvUpdateSequenceNum (Stream_Name (stream c)) (ShardId (shard c))
          lastSeqNum].

(** The batches of a run in which every call of [GetRecords] succeeds;
    [None] for any other run. *)
Fixpoint batchesOf (ts : list Tick) : option (list GetRecordsOutput) :=
  match ts with
  | [] => Some []
  | FlushTimer :: rest => batchesOf rest
  | Source e :: rest =>
      match running e, recordsResult e with
      | true, (Some out, None) =>
          match batchesOf rest with
          | Some outs => Some (out :: outs)
          | None => None
          end
      | _, _ => None
      end
  end.

End Consumer.

Arguments Consumer P TG : clear implicits.

End Shard.

(** ** The consumer of the SQS ingester: [queueRunner] *)

Module Queue.

Record Message := mkMessage {
  Body : string;
  Attributes : gmap string string;
}.

Record ReceiveMessageOutput := mkReceiveMessageOutput {
  Messages : list Message;
}.

Record ReceiveMessageInput := mkReceiveMessageInput {
  AttributeNames : list string;
  QueueUrl : option string;
}.

(** [req.Validate()] of the SDK. *)
Class SqsRequest := {
  Validate : ReceiveMessageInput -> option error;
}.

(** The fields of [handlerConfig] that [queueRunner] reads, the processor
    set apart. *)
Record handlerConfig := mkHandlerConfig {
  queue : string;
  tag : Z;
  ignoreTimestamps : bool;
  src : IP;
}.

Inductive LogLine :=
| LgValidation (e : error)
| LgReceive (e : error)
| LgNoTimestamp (attributes : gmap string string)
| LgParseInt (t : string)
| LgSending (e : error).

Inductive Event :=
| EvReceiveMessage (req : ReceiveMessageInput)
| EvLog (l : LogLine)
| EvProcess (ent : Entry).

(** What the [select] of one round of the loop receives: the answer of
    [svc.ReceiveMessage], or the closing of [hcfg.done]. *)
Inductive Arrival :=
| Answer (o : option ReceiveMessageOutput) (err : option error)
| DoneClosed.

(** Whether the function is still in its loop. *)
Inductive Status := Looping | Returned.

Section Runner.
Context {P K : Type} `{!ProcessorSet P, !Clock K, !EntryLib, !Strconv, !SqsRequest}.

Record State := mkState {
  proc : P;
  clock : K;
}.

(** The time stamp of one message, from [var ts entry.Timestamp] to the
    construction of the entry. *)
Definition messageTS (hcfg : handlerConfig) (v : Message) (k : K)
  : K * Timestamp * list Event :=
  if negb (ignoreTimestamps hcfg) then
    (* grab the timestamp from SQS *)
    match Attributes v !! "SentTimestamp" with
    | None => (k, zeroTimestamp, [EvLog (LgNoTimestamp (Attributes v))])
    | Some t =>
        match ParseInt t with
        | None => (k, zeroTimestamp, [EvLog (LgParseInt t)])
        | Some ut => (k, UnixTime (Z.quot ut 1000) 0, [])
        end
    end
  else
    let '(k', now) := Now k in (k', now, []).

(** The entry built for one message. *)
Definition buildEntry (hcfg : handlerConfig) (v : Message) (k : K)
  : K * Entry * list Event :=
  let '(k', ts, evs) := messageTS hcfg v k in
  (k', mkEntry ts (src hcfg) (tag hcfg) (String.list_byte_of_string (Body v)),
   evs).

(** The body of [for _, v := range out.Messages]; the error is the one
    [ProcessContext] returned. *)
Definition handleMessage (hcfg : handlerConfig) (v : Message) (st : State)
  : State * list Event * option error :=
  let '(k, ent, evs) := buildEntry hcfg v (clock st) in
  let '(ps, err) := ProcessContext (proc st) ent in
  (mkState ps k,
   evs ++ EvProcess ent ::
     match err with
     | Some e => [EvLog (LgSending e)]
     | None => []
     end,
   err).

Fixpoint handleMessages (hcfg : handlerConfig) (msgs : list Message)
    (st : State) : State * list Event * Status :=
  match msgs with
  | [] => (st, [], Looping)
  | v :: rest =>
      let '(st1, ev1, err) := handleMessage hcfg v st in
      match err with
      | Some _ => (st1, ev1, Returned)
      | None =>
          let '(st2, ev2, status) := handleMessages hcfg rest st1 in
          (st2, ev1 ++ ev2, status)
      end
  end.

(** One round of the outer [for]. *)
Definition round (hcfg : handlerConfig) (a : Arrival) (st : State)
  : State * list Event * Status :=
  let req := mkReceiveMessageInput ["SentTimestamp"] (Some (queue hcfg)) in
  (* an := "SentTimestamp"; req.SetQueueUrl(hcfg.queue) *)
  match Validate req with
  | Some e => (st, [EvLog (LgValidation e)], Returned)
  | None =>
      match a with
      | DoneClosed => (st, [EvReceiveMessage req], Returned)
      | Answer _ (Some e) => (st, [EvReceiveMessage req; EvLog (LgReceive e)], Returned)
      | Answer None None => (st, [EvReceiveMessage req], Returned)
      | Answer (Some out) None =>
          let '(st', evs, status) := handleMessages hcfg (Messages out) st in
          (st', EvReceiveMessage req :: evs, status)
      end
  end.

(** [queueRunner] against the arrivals of its successive rounds; it is still
    [Looping] when they run out before it returns. *)
Fixpoint queueRunner (hcfg : handlerConfig) (arrivals : list Arrival)
    (st : State) : State * list Event * Status :=
  match arrivals with
  | [] => (st, [], Looping)
  | a :: rest =>
      let '(st1, ev1, status) := round hcfg a st in
      match status with
      | Returned => (st1, ev1, Returned)
      | Looping =>
          let '(st2, ev2, status2) := queueRunner hcfg rest st1 in
          (st2, ev1 ++ ev2, status2)
      end
  end.

(** The request of every round. *)
Definition request (hcfg : handlerConfig) : ReceiveMessageInput :=
  mkReceiveMessageInput ["SentTimestamp"] (Some (queue hcfg)).

(** The entries handed to the processor set in a trace. *)
Fixpoint processed (evs : list Event) : list Entry :=
  match evs with
  | [] => []
  | EvProcess ent :: rest => ent :: processed rest
  | _ :: rest => processed rest
  end.

End Runner.

Arguments State P K : clear implicits.

End Queue.

(** ** Start-up of a stream in [main]: the shard goroutines and the reporter *)

Module Reporter.
Import Shard.

(** The shards a goroutine is started for. *)
Definition spawned (shards : list Shard_) : list Shard_ :=
  filter (fun sh => closed sh = false) shards.

(** [metricsTrackers] once every started goroutine has appended its
    tracker (a goroutine whose [Timezone_Override] is rejected returns before
    it does; streams without an override are modelled). *)
Definition metricsTrackers (st : streamDef) (shards : list Shard_)
  : list Metrics.shardMetrics :=
  map (fun _ => Metrics.newTracker (Metrics_Interval st)) (spawned shards).

(** Outcome of the first firing of the timer of the reporter goroutine, which
    exists when [stream.Metrics_Interval > 0]. *)
Inductive Firing :=
| NoReporter
| Panic
| Reported (report : Metrics.metricsReport)
           (trackers : list Metrics.shardMetrics).

Definition firstReport (st : streamDef) (shards : list Shard_) : Firing :=
  if decide (0 < Metrics_Interval st) then
    match Metrics.reportTick (Stream_Name st) (length shards)
            (metricsTrackers st shards) with
    | None => Panic
    | Some (report, trackers) => Reported report trackers
    end
  else NoReporter.

End Reporter.

(** ** Sums over samples and updates, for stating what the metrics hold *)

Module Tally.
Import Metrics.

(** A tracker after the calls [tracker.Update(res, entrySize)] of [us], in
    order. *)
Definition applyUpdates (us : list (GetRecordsOutput * Z)) (s : shardMetrics)
  : shardMetrics :=
  fold_left (fun s u => Update (fst u) (snd u) s) us s.

Definition sumZ (zs : list Z) : Z := fold_right Z.add 0 zs.

(** The bytes of data in the records of a response, as a mathematical
    integer. *)
Definition dataBytes (res : GetRecordsOutput) : Z :=
  sumZ ((fun r => Z.of_nat (length (Data r))) <$> Records res).

(** A sample as [ReadAndReset] leaves it. *)
Definition drained (s : shardMetrics) : shardMetrics :=
  snd (ReadAndReset s).

(** The three counters hold [uint64] values. *)
Definition counters64 (s : shardMetrics) : Prop :=
  0 <= datasize s < 2 ^ 64 /\ 0 <= entrysize s < 2 ^ 64 /\
  0 <= requests s < 2 ^ 64.

End Tally.

(** ** Discovery of the shards of a stream in [main] *)

Module Discovery.
Import Shard.

Record StreamDescription := mkStreamDescription {
  Shards : list Shard_;
  HasMoreShards : bool;
}.

Record DescribeStreamInput := mkDsi {
  dsiStreamName : option string;
  ExclusiveStartShardId : option string;
}.

(** What [svc.DescribeStream] hands back: the description and the error. *)
Definition DescribeStreamResult : Type := StreamDescription * option error.

Inductive Event :=
| EvDescribeStream (dsi : DescribeStreamInput)
| EvLog (err : error).

(** How the loop stands when the answers run out: it has left with the
    shards, it has panicked on [newshards[len(newshards)-1]] with no new
    shard, or it is about to ask again. *)
Inductive Outcome :=
| Found (shards : list Shard_)
| OutOfRange
| Asking (dsi : DescribeStreamInput) (shards : list Shard_).

Definition SetExclusiveStartShardId (id : string) (dsi : DescribeStreamInput)
  : DescribeStreamInput :=
  mkDsi (dsiStreamName dsi) (Some id).

(** The [for] loop that fills [shards], against the successive answers of
    the service. *)
Fixpoint discover (answers : list DescribeStreamResult)
    (dsi : DescribeStreamInput) (shards : list Shard_)
  : Outcome * list Event :=
  match answers with
  | [] => (Asking dsi shards, [])
  | (_, Some err) :: rest =>
      let '(o, evs) := discover rest dsi shards in
      (o, EvDescribeStream dsi :: EvLog err :: evs)
  | (streamdesc, None) :: rest =>
      let newshards := Shards streamdesc in
      let shards := shards ++ newshards in
      if HasMoreShards streamdesc then
        match last newshards with
        | None => (OutOfRange, [EvDescribeStream dsi])
        | Some sh =>
            let '(o, evs) :=
              discover rest (SetExclusiveStartShardId (ShardId sh) dsi) shards in
            (o, EvDescribeStream dsi :: evs)
        end
      else (Found shards, [EvDescribeStream dsi])
  end.

(** The loop as [main] enters it for a stream. *)
Definition discoverShards (stream_name : string)
    (answers : list DescribeStreamResult) : Outcome * list Event :=
  discover answers (mkDsi (Some stream_name) None) [].

(** The requests of a trace, in order. *)
Fixpoint describesOf (evs : list Event) : list DescribeStreamInput :=
  match evs with
  | [] => []
  | EvDescribeStream dsi :: rest => dsi :: describesOf rest
  | EvLog _ :: rest => describesOf rest
  end.

(** An answer after which the loop goes round again: an error, or a page
    that has shards and announces more. *)
Definition continues (r : DescribeStreamResult) : bool :=
  match r with
  | (_, Some _) => true
  | (streamdesc, None) =>
      HasMoreShards streamdesc && negb (bool_decide (Shards streamdesc = []))
  end.

(** The shards of the pages among the answers. *)
Definition pagesOf (answers : list DescribeStreamResult) : list Shard_ :=
  flat_map (fun r => match r with
                     | (streamdesc, None) => Shards streamdesc
                     | (_, Some _) => []
                     end) answers.

(** The request of a loop that has collected [shards] so far. *)
Definition requestFor (stream_name : string) (shards : list Shard_)
  : DescribeStreamInput :=
  mkDsi (Some stream_name) (ShardId <$> last shards).

End Discovery.

(** ** What a trace shows of the calls to the service *)

Module Observe.
Import Shard.

(** The requests of the calls of [GetRecords] in a trace, in order. *)
Fixpoint getRecordsOf (evs : list Event) : list GetRecordsInput :=
  match evs with
  | [] => []
  | EvGetRecords gri :: rest => gri :: getRecordsOf rest
  | _ :: rest => getRecordsOf rest
  end.

(** The requests of the calls of [GetShardIterator] in a trace, in order. *)
Fixpoint getShardIteratorsOf (evs : list Event) : list GetShardIteratorInput :=
  match evs with
  | [] => []
  | EvGetShardIterator gsii :: rest => gsii :: getShardIteratorsOf rest
  | _ :: rest => getShardIteratorsOf rest
  end.

(** How often the processor set is closed in a trace. *)
Fixpoint closes (evs : list Event) : nat :=
  match evs with
  | [] => 0%nat
  | EvProcClose :: rest => S (closes rest)
  | _ :: rest => closes rest
  end.

(** The service fails a [GetRecords] with anything but an expired
    iterator. *)
Definition failsInPlace (e : Env) : bool :=
  match recordsResult e with
  | (_, Some (AwsError code _)) =>
      negb (bool_decide (code = ErrCodeExpiredIteratorException))
  | (_, Some (PlainError _)) => true
  | (_, None) => false
  end.

(** The sleep that follows a failure in place: 500 ms after an error of the
    SDK, none after any other error. *)
Definition backoff (e : Env) : list Z :=
  match recordsResult e with
  | (_, Some (AwsError _ _)) => [500]
  | _ => []
  end.

(** The service gives no iterator: an error, or a nil iterator. *)
Definition refusesIterator (e : Env) : bool :=
  match iterResult e with
  | (_, Some _) => true
  | (output, None) => bool_decide (ShardIterator output = None)
  end.

(** The sequence numbers of the records a run delivers. *)
Definition deliveredTokens (ts : list Tick) : list string :=
  SequenceNumber <$> flat_map delivered ts.

End Observe.

(** ** What a trace shows of the queue consumer *)

Module QueueObserve.
Import Queue.

(** The arrivals that make [queueRunner] return without looking at a
    message: the closing of [done], a failed receive, a nil output. *)
Definition endsTask (a : Arrival) : bool :=
  match a with
  | Answer (Some _) None => false
  | _ => true
  end.

(** The payloads of the messages of a batch, in order. *)
Definition bodies (msgs : list Message) : list (list Byte.byte) :=
  (fun v => String.list_byte_of_string (Body v)) <$> msgs.

(** A log line about the time stamp of a message. *)
Definition timestampLine (ev : Event) : bool :=
  match ev with
  | EvLog (LgNoTimestamp _) | EvLog (LgParseInt _) => true
  | _ => false
  end.

(** What holds of the entries and the log lines of a stretch of trace of
    the queue consumer: every entry carries the configured tag and source,
    and no line is about a time stamp when time stamps are ignored. *)
Definition wellStamped (hcfg : handlerConfig) (evs : list Event) : Prop :=
  Forall (fun ent => Tag ent = tag hcfg /\ SRC ent = src hcfg) (processed evs) /\
  (ignoreTimestamps hcfg = true ->
   Forall (fun ev => timestampLine ev = false) evs).

End QueueObserve.

(** ** Concrete collaborators, for running the models *)

Module Sample.

(** A processor set that keeps what it was handed and rejects entries
    without data. *)
Definition sampleProcess (seen : list Entry) (ent : Entry)
  : list Entry * option error :=
  (seen ++ [ent],
   match EntData ent with
   | [] => Some (PlainError "empty entry")
   | _ => None
   end).

#[export] Instance processor : ProcessorSet (list Entry) := {
  ProcessContext := sampleProcess;
  ProcClose seen := (seen, None);
}.

(** A grinder that finds the time stamp 7 in data that starts with the byte
    ["T"], and nothing elsewhere; its state counts the calls. *)
#[export] Instance grinder : TimeGrinder nat := {
  Extract n data :=
    (S n,
     match data with
     | Byte.x54 :: _ => (7, true, None)
     | _ => (0, false, None)
     end);
}.

#[export] Instance entrylib : EntryLib := {
  FromStandard t := mkTimestamp t 0;
  UnixTime s ns := mkTimestamp s ns;
  EntrySize ent := Z.of_nat (length (EntData ent)) + 34;
}.

(** A clock that advances by one second for each reading. *)
#[export] Instance clock : Clock Z := {
  Now k := (k + 1, mkTimestamp k 0);
}.

(** Only the two numerals the examples use are read. *)
#[export] Instance strconv : Strconv := {
  ParseInt s :=
    if decide (s = "1600000000000") then Some 1600000000000
    else if decide (s = "5000") then Some 5000
    else None;
}.

#[export] Instance sqsrequest : Queue.SqsRequest := {
  Validate req :=
    match Queue.QueueUrl req with
    | Some _ => None
    | None => Some (PlainError "missing required field QueueUrl")
    end;
}.

Definition bytes (s : string) : list Byte.byte := String.list_byte_of_string s.

Definition record (seq data : string) (arrival : Z) : Record_ :=
  mkRecord seq (bytes data) arrival.

Definition stream0 : Shard.streamDef :=
  Shard.mkStreamDef "s" "TRIM_HORIZON" false 10.

Definition shard0 : Shard.Shard_ := Shard.mkShard "shard-0" None.

Definition closedShard : Shard.Shard_ :=
  Shard.mkShard "shard-1" (Some (Shard.mkRange (Some "1") (Some "99"))).

(** A state file that holds the token ["100"] for [shard0]. *)
Definition file100 : gmap string (gmap string string) :=
  {[ "s" := {[ "shard-0" := "100" ]} ]}.

Definition consumer0 (file : gmap string (gmap string string))
  : Shard.Consumer (list Entry) nat :=
  Shard.newConsumer stream0 shard0 0 1 None 0%nat [] (Stateman.NewStateman file).

(** A consumer that parses time stamps. *)
Definition parsing0 : Shard.Consumer (list Entry) nat :=
  Shard.newConsumer (Shard.mkStreamDef "s" "TRIM_HORIZON" true 10) shard0 0 1
    None 0%nat [] (Stateman.NewStateman file100).

(** The service answers a [GetShardIterator] with an iterator. *)
Definition gotIterator (it : string) : Shard.Tick :=
  Shard.Source
    (Shard.mkEnv true (Shard.mkGsio (Some it), None) (None, None)).

(** The service answers a [GetRecords] with records. *)
Definition batchOutput (recs : list Record_) (next : string) : GetRecordsOutput :=
  mkGetRecordsOutput recs (Some next) 0.

Definition batchEnv (recs : list Record_) (next : string) : Shard.Env :=
  Shard.mkEnv true (Shard.mkGsio None, None)
    (Some (batchOutput recs next), None).

Definition gotRecords (recs : list Record_) (next : string) : Shard.Tick :=
  Shard.Source (batchEnv recs next).

(** The service answers a [GetRecords] with an error of the given code. *)
Definition gotError (code : string) : Shard.Tick :=
  Shard.Source
    (Shard.mkEnv true (Shard.mkGsio None, None)
       (Some (mkGetRecordsOutput [] None 0), Some (AwsError code EmptyString))).

Definition batch101_105 : list Record_ :=
  [record "101" "a" 1; record "102" "b" 2; record "103" "c" 3;
   record "104" "d" 4; record "105" "e" 5].

Definition hcfg0 : Queue.handlerConfig :=
  Queue.mkHandlerConfig "https://sqs.example/q" 2 false None.

Definition stamped (body : string) : Queue.Message :=
  Queue.mkMessage body {[ "SentTimestamp" := "1600000000000" ]}.

Definition unstamped (body : string) : Queue.Message :=
  Queue.mkMessage body ∅.

Definition qstate0 : Queue.State (list Entry) Z := Queue.mkState [] 0.

(** A state file that holds tokens for two shards of the stream. *)
Definition fileTwo : gmap string (gmap string string) :=
  {[ "s" := {[ "shard-0" := "100"; "shard-1" := "7" ]} ]}.

(** The service fails a [GetRecords] with an error of the SDK, while
    [running] reads as [alive]. *)
Definition failEnv (alive : bool) (code : string) : Shard.Env :=
  Shard.mkEnv alive (Shard.mkGsio None, None)
    (None, Some (AwsError code "try later")).

(** The call fails with an error that is not of the SDK, after shutdown. *)
Definition brokenEnv : Shard.Env :=
  Shard.mkEnv false (Shard.mkGsio None, None)
    (None, Some (PlainError "connection reset")).

(** The service refuses an iterator: by an error, by a nil iterator. *)
Definition refusalEnv : Shard.Env :=
  Shard.mkEnv true
    (Shard.mkGsio None, Some (AwsError "ResourceNotFoundException" "no shard"))
    (None, None).

Definition nilIteratorEnv : Shard.Env :=
  Shard.mkEnv true (Shard.mkGsio None, None) (None, None).

(** [running] reads as false. *)
Definition stopEnv : Shard.Env :=
  Shard.mkEnv false (Shard.mkGsio None, None) (None, None).

(** A batch whose second record has no data, which [sampleProcess]
    rejects. *)
Definition batchWithReject : list Record_ :=
  [record "201" "a" 1; record "202" EmptyString 2; record "203" "c" 3].

Definition shard2 : Shard.Shard_ := Shard.mkShard "shard-2" None.

(** Answers to [DescribeStream]: a page that announces more, a failure, a
    last page, and a page that announces more but is empty. *)
Definition pageMore : Discovery.DescribeStreamResult :=
  (Discovery.mkStreamDescription [shard0; closedShard] true, None).

Definition pageFailed : Discovery.DescribeStreamResult :=
  (Discovery.mkStreamDescription [] false,
   Some (AwsError "LimitExceededException" "too many calls")).

Definition pageLast : Discovery.StreamDescription :=
  Discovery.mkStreamDescription [shard2] false.

Definition pageEmptyMore : Discovery.StreamDescription :=
  Discovery.mkStreamDescription [] true.

(** A message whose time stamp attribute is not a number. *)
Definition garbled (body : string) : Queue.Message :=
  Queue.mkMessage body {[ "SentTimestamp" := "soon" ]}.

End Sample.

(** * Properties *)

(** ** The checkpoint store *)

Section StatemanFacts.
Import Stateman.
Implicit Types (s : stateman) (stream shard seq : string).

Lemma init_stream_lookup stream m :
  is_Some (init_stream stream m !! stream).
Proof.
  unfold init_stream. destruct (m !! stream) eqn:E.
  - rewrite E. eauto.
  - rewrite lookup_insert_eq. eauto.
Qed.

Lemma init_stream_index2 stream m stream' shard :
  index2 (init_stream stream m) stream' shard = index2 m stream' shard.
Proof.
  unfold init_stream, index2. destruct (m !! stream) eqn:E; [done|].
  destruct (decide (stream = stream')) as [->|Hne].
  - by rewrite lookup_insert_eq, E.
  - by rewrite lookup_insert_ne.
Qed.

Lemma Flush_states s : states (Flush s) = states s.
Proof. reflexivity. Qed.

Lemma Flush_current stream shard s :
  current stream shard (Flush s) = current stream shard s.
Proof. reflexivity. Qed.

(** After a flush the state file holds what the memory holds. *)
Lemma Flush_persisted stream shard s :
  persisted stream shard (Flush s) = current stream shard s.
Proof. reflexivity. Qed.

Lemma GetSequenceNum_value stream shard s :
  snd (GetSequenceNum stream shard s) = current stream shard s.
Proof. unfold GetSequenceNum, current. simpl. apply init_stream_index2. Qed.

Lemma GetSequenceNum_current stream shard s stream' shard' :
  current stream' shard' (fst (GetSequenceNum stream shard s))
  = current stream' shard' s.
Proof. unfold GetSequenceNum, current. simpl. apply init_stream_index2. Qed.

Lemma GetSequenceNum_stateFile stream shard s :
  stateFile (fst (GetSequenceNum stream shard s)) = stateFile s.
Proof. reflexivity. Qed.

Lemma UpdateSequenceNum_current stream shard seq s :
  current stream shard (UpdateSequenceNum stream shard seq s) = seq.
Proof.
  unfold UpdateSequenceNum, current, index2. simpl.
  rewrite lookup_insert_eq. simpl. by rewrite lookup_insert_eq.
Qed.

Lemma UpdateSequenceNum_stateFile stream shard seq s :
  stateFile (UpdateSequenceNum stream shard seq s) = stateFile s.
Proof. reflexivity. Qed.

(** Writing the token that is already stored leaves the map as it was,
    provided the token is not the empty string (for which the entry may be
    missing). *)
Lemma UpdateSequenceNum_same stream shard seq s :
  seq <> EmptyString ->
  current stream shard s = seq ->
  states (UpdateSequenceNum stream shard seq s) = states s.
Proof.
  intros Hne Hcur. unfold UpdateSequenceNum, current, index2, init_stream in *.
  simpl. destruct (states s !! stream) as [inner|] eqn:E; simpl in *.
  - rewrite E. simpl.
    destruct (inner !! shard) as [v|] eqn:E2; simpl in *; [|congruence].
    subst v. rewrite (insert_id inner shard seq E2).
    by apply insert_id.
  - rewrite lookup_empty in Hcur. simpl in Hcur. congruence.
Qed.

(** C9: [GetSequenceNum] is not read-only.  For a stream that has no entry in
    the store it returns the empty token and leaves an empty inner map under
    the stream's name in the shared map, so the store differs from what it
    was, and a later [Flush] writes a key for the stream, which a [Flush]
    without the read would not have written. *)
Theorem GetSequenceNum_inserts_stream stream shard s :
  states s !! stream = None ->
  snd (GetSequenceNum stream shard s) = EmptyString /\
  states (fst (GetSequenceNum stream shard s)) = <[stream := ∅]> (states s) /\
  states (fst (GetSequenceNum stream shard s)) <> states s /\
  stateFile (Flush (fst (GetSequenceNum stream shard s))) !! stream = Some ∅ /\
  stateFile (Flush s) !! stream = None.
Proof.
  intros Hnone.
  assert (Hst : states (fst (GetSequenceNum stream shard s))
                = <[stream := ∅]> (states s)).
  { unfold GetSequenceNum, init_stream. simpl. by rewrite Hnone. }
  repeat split.
  - rewrite GetSequenceNum_value. unfold current, index2.
    rewrite Hnone. simpl. by rewrite lookup_empty.
  - exact Hst.
  - rewrite Hst. intros Heq.
    apply (f_equal (fun m => m !! stream)) in Heq.
    rewrite lookup_insert_eq, Hnone in Heq. discriminate.
  - change (states (fst (GetSequenceNum stream shard s)) !! stream = Some ∅).
    rewrite Hst. apply lookup_insert_eq.
  - exact Hnone.
Qed.

Lemma GetSequenceNum_inserts_stream_witness :
  states (NewStateman Sample.file100) !! "t" = None /\
  stateFile (Flush (fst (GetSequenceNum "t" "shard-0"
                           (NewStateman Sample.file100)))) !! "t" = Some ∅.
Proof.
  split; [reflexivity|].
  apply (GetSequenceNum_inserts_stream "t" "shard-0"
           (NewStateman Sample.file100)).
  reflexivity.
Defined.

End StatemanFacts.

(** ** The metrics *)

Section MetricsFacts.
Import Metrics.

(** C6: [ReadAndReset] returns the four counters as they are, and leaves the
    sample with [datasize], [entrysize] and [requests] at zero and
    [millisbehind] as it was; a second call right after the first returns
    zero for the three counters and the same lag. *)
Theorem ReadAndReset_drains_all_but_lag (s : shardMetrics) :
  let first := ReadAndReset s in
  let second := ReadAndReset (snd first) in
  fst first = (millisbehind s, datasize s, entrysize s, requests s) /\
  datasize (snd first) = 0 /\
  entrysize (snd first) = 0 /\
  requests (snd first) = 0 /\
  millisbehind (snd first) = millisbehind s /\
  fst second = (millisbehind s, 0, 0, 0) /\
  snd second = snd first.
Proof. simpl. repeat split. Qed.

Lemma drain_length report trackers :
  length (snd (drain report trackers)) = length trackers.
Proof.
  revert report. induction trackers as [|t rest IH]; intros report; simpl.
  - reflexivity.
  - destruct (drain _ rest) as [final rest'] eqn:E. simpl.
    specialize (IH (mkMetricsReport (StreamName report) (ShardCount report)
      (int64_wrap (AverageLag report + millisbehind t))
      (uint64_wrap (CompressedDataSize report + datasize t))
      (uint64_wrap (EntryDataSize report + entrysize t))
      (uint64_wrap (KinesisRequests report + requests t)))).
    rewrite E in IH. simpl in IH. by rewrite IH.
Qed.

(** The reporter's division panics exactly when no tracker is registered. *)
Lemma reportTick_None name n trackers :
  reportTick name n trackers = None <-> trackers = [].
Proof.
  unfold reportTick. destruct (drain _ trackers) as [report trackers'] eqn:E.
  unfold int64_div. destruct (decide (Z.of_nat (length trackers) = 0)) as [H0|H0].
  - split; [|done]. intros _. destruct trackers; [done|simpl in H0; lia].
  - split; [done|]. intros ->. simpl in H0. lia.
Qed.

End MetricsFacts.

Section ReporterFacts.
Import Shard Reporter.

Lemma spawned_all_closed shards :
  Forall (fun sh => closed sh = true) shards -> spawned shards = [].
Proof.
  unfold spawned. induction 1 as [|sh rest Hsh _ IH]; [done|].
  rewrite filter_cons. destruct (decide (closed sh = false)); [congruence|done].
Qed.

(** C10, as the code has it: with metrics enabled and every shard of the
    stream closed, no goroutine registers a tracker, and the first firing of
    the reporter's timer divides by zero. *)
Theorem firstReport_panics_when_all_shards_closed st shards :
  0 < Metrics_Interval st ->
  Forall (fun sh => closed sh = true) shards ->
  metricsTrackers st shards = [] /\ firstReport st shards = Panic.
Proof.
  intros Hpos Hclosed.
  assert (Hnil : metricsTrackers st shards = []).
  { unfold metricsTrackers. by rewrite spawned_all_closed. }
  split; [exact Hnil|].
  unfold firstReport. rewrite decide_True by exact Hpos.
  rewrite Hnil. reflexivity.
Qed.

Lemma firstReport_panics_when_all_shards_closed_witness :
  0 < Metrics_Interval Sample.stream0 /\
  firstReport Sample.stream0 [Sample.closedShard] = Panic.
Proof.
  split; [reflexivity|].
  apply (firstReport_panics_when_all_shards_closed Sample.stream0
           [Sample.closedShard]).
  - reflexivity.
  - repeat constructor.
Defined.

End ReporterFacts.

(** ** The per-shard consumer *)

Section ConsumerFacts.
Import Shard.
Context {P TG : Type} `{!ProcessorSet P, !TimeGrinder TG, !EntryLib}.
Implicit Types (c : Consumer P TG) (e : Env) (evs : list Event).

Lemma run_app ts1 ts2 c :
  run (ts1 ++ ts2) c =
  (fst (run ts2 (fst (run ts1 c))),
   snd (run ts1 c) ++ snd (run ts2 (fst (run ts1 c)))).
Proof.
  revert c. induction ts1 as [|t ts1 IH]; intros c; simpl.
  - by destruct (run ts2 c).
  - destruct (tick t c) as [c1 ev1]. rewrite IH.
    destruct (run ts1 c1) as [c2 ev2]. simpl.
    destruct (run ts2 c2) as [c3 ev3]. simpl. by rewrite app_assoc.
Qed.

(** A step that fetches is the call of [GetRecords] with the pending
    request. *)
Lemma step_fetches e c gri :
  nextRequest c = Some gri -> fetches e c = true ->
  exists iter last,
    lastSeqNumOf c = Some last /\
    step e c = fetch gri iter last (recordsResult e) c.
Proof.
  unfold nextRequest, fetches, lastSeqNumOf, step.
  destruct (phase c) as [|iter last|gri' iter last| |]; intros Hreq Hf;
    try discriminate.
  - injection Hreq as <-. rewrite Hf. eauto.
  - injection Hreq as <-. eauto.
Qed.

(** Every call of [GetRecords] shows first in the trace of its step. *)
Lemma fetch_head gri iter last r c :
  exists evs, snd (fetch gri iter last r c) = EvGetRecords gri :: evs.
Proof.
  unfold fetch. destruct r as [res err].
  destruct err as [[code message|text]|].
  - repeat case_decide; simpl; eauto.
  - simpl; eauto.
  - destruct res as [out|]; [|simpl; eauto].
    destruct (handleBatch out _ last c). simpl. eauto.
Qed.

Lemma acquire_head r c :
  exists evs,
    snd (acquire r c) =
    EvGetSequenceNum (Stream_Name (stream c)) (ShardId (shard c))
      :: EvGetShardIterator (snd (acquireRequest c)) :: evs.
Proof.
  unfold acquire. destruct (acquireRequest c) as [sm gsii]. simpl.
  destruct r as [output [err|]]; [simpl; eauto|].
  destruct (ShardIterator output); simpl; eauto.
Qed.

(** The request of [reconnectLoop] is built from the token the checkpoint
    store holds in memory; the state file plays no part. *)
Lemma acquireRequest_token c :
  snd (acquireRequest c) =
  if decide (storedToken c = EmptyString)
  then mkGsii (Some (ShardId (shard c))) (Some (Stream_Name (stream c)))
         (Some (Iterator_Type (stream c))) None
  else mkGsii (Some (ShardId (shard c))) (Some (Stream_Name (stream c)))
         (Some "AFTER_SEQUENCE_NUMBER") (Some (storedToken c)).
Proof.
  unfold acquireRequest, storedToken.
  pose proof (GetSequenceNum_value (Stream_Name (stream c))
                (ShardId (shard c)) (stateMan c)) as Hv.
  destruct (Stateman.GetSequenceNum _ _ (stateMan c)) as [sm seqnum].
  simpl in Hv. subst seqnum. reflexivity.
Qed.

(** C7: a consumer inside [for running] whose [GetRecords] fails with the
    throughput-exceeded code logs the warning, sleeps 500 ms and stays
    inside the loop, about to repeat the call with the request of the failed
    call, hence with the same iterator; the checkpoint store is not touched,
    and whatever the service answers next, the step that follows opens with
    a [GetRecords] carrying that same request. *)
Theorem throughput_exceeded_retries_same_iterator e c gri res message :
  nextRequest c = Some gri ->
  fetches e c = true ->
  recordsResult e =
    (res, Some (AwsError ErrCodeProvisionedThroughputExceededException message)) ->
  snd (step e c) = [EvGetRecords gri; EvLog LgThroughputExceeded; EvSleep 500] /\
  (exists iter last, phase (fst (step e c)) = Retrying gri iter last) /\
  nextRequest (fst (step e c)) = Some gri /\
  lastSeqNumOf (fst (step e c)) = lastSeqNumOf c /\
  stateMan (fst (step e c)) = stateMan c /\
  forall e', exists evs,
    snd (step e' (fst (step e c))) = EvGetRecords gri :: evs.
Proof.
  intros Hreq Hf Hres.
  destruct (step_fetches e c gri Hreq Hf) as (iter & last & Hlast & Hstep).
  rewrite Hstep, Hres. unfold fetch. rewrite decide_True by reflexivity.
  simpl. repeat split; eauto.
  intros e'. unfold step. simpl. apply fetch_head.
Qed.

(** C1, as the code has it: a consumer inside [for running] whose
    [GetRecords] fails with the expired-iterator code logs, sleeps 100 ms
    and goes back to the top of [reconnectLoop]; the request it builds there
    is positioned after the token the checkpoint store holds in memory for
    the shard (the last one [UpdateSequenceNum] wrote, flushed or not), or
    asks for the configured iterator type when that token is empty. *)
Theorem expired_iterator_reacquires_from_memory e c gri res message :
  nextRequest c = Some gri ->
  fetches e c = true ->
  recordsResult e =
    (res, Some (AwsError ErrCodeExpiredIteratorException message)) ->
  snd (step e c) = [EvGetRecords gri; EvLog LgIteratorExpired; EvSleep 100] /\
  phase (fst (step e c)) = Acquiring /\
  stateMan (fst (step e c)) = stateMan c /\
  snd (acquireRequest (fst (step e c))) =
    (if decide (storedToken c = EmptyString)
     then mkGsii (Some (ShardId (shard c))) (Some (Stream_Name (stream c)))
            (Some (Iterator_Type (stream c))) None
     else mkGsii (Some (ShardId (shard c))) (Some (Stream_Name (stream c)))
            (Some "AFTER_SEQUENCE_NUMBER") (Some (storedToken c))) /\
  forall e', exists evs,
    snd (step e' (fst (step e c))) =
    EvGetSequenceNum (Stream_Name (stream c)) (ShardId (shard c))
      :: EvGetShardIterator (snd (acquireRequest (fst (step e c)))) :: evs.
Proof.
  intros Hreq Hf Hres.
  destruct (step_fetches e c gri Hreq Hf) as (iter & last & Hlast & Hstep).
  rewrite Hstep, Hres. unfold fetch.
  rewrite decide_False by discriminate. rewrite decide_True by reflexivity.
  simpl. repeat split.
  - apply (acquireRequest_token (set_phase Acquiring c)).
  - intros e'. unfold step. simpl.
    apply (acquire_head (iterResult e') (set_phase Acquiring c)).
Qed.

End ConsumerFacts.

(** *** The consumer on concrete runs *)

Section ConsumerRuns.
Import Shard Sample.

Lemma throughput_exceeded_retries_same_iterator_witness :
  let c := fst (run [Sample.gotIterator "it0"] (Sample.consumer0 Sample.file100)) in
  let e := mkEnv true (mkGsio None, None)
             (None, Some (AwsError ErrCodeProvisionedThroughputExceededException
                            "Rate exceeded")) in
  nextRequest c = Some (mkGri (Some 5000) (Some "it0")) /\
  nextRequest (fst (step e c)) = Some (mkGri (Some 5000) (Some "it0")).
Proof.
  split; [reflexivity|].
  eapply (throughput_exceeded_retries_same_iterator
            (mkEnv true (mkGsio None, None)
               (None, Some (AwsError ErrCodeProvisionedThroughputExceededException
                              "Rate exceeded")))
            (fst (run [Sample.gotIterator "it0"]
                    (Sample.consumer0 Sample.file100)))
            (mkGri (Some 5000) (Some "it0")) None "Rate exceeded");
    reflexivity.
Defined.

Lemma expired_iterator_reacquires_from_memory_witness :
  let c := fst (run [Sample.gotIterator "it0";
                     Sample.gotRecords Sample.batch101_105 "it1"]
                  (Sample.consumer0 Sample.file100)) in
  let e := mkEnv true (mkGsio None, None)
             (None, Some (AwsError ErrCodeExpiredIteratorException "expired")) in
  nextRequest c = Some (mkGri (Some 5000) (Some "it1")) /\
  phase (fst (step e c)) = Acquiring.
Proof.
  split; [reflexivity|].
  eapply (expired_iterator_reacquires_from_memory
            (mkEnv true (mkGsio None, None)
               (None, Some (AwsError ErrCodeExpiredIteratorException "expired")))
            (fst (run [Sample.gotIterator "it0";
                       Sample.gotRecords Sample.batch101_105 "it1"]
                    (Sample.consumer0 Sample.file100)))
            (mkGri (Some 5000) (Some "it1")) None "expired");
    reflexivity.
Defined.

(** C1, as the specification has it, fails: the state file holds the token
    100, a batch ending at 105 is handled and no flush has taken place when
    the iterator expires; the consumer goes back to acquiring and asks for an
    iterator after 105, the token held in memory, while the last persisted
    token is still 100. *)
Lemma expired_iterator_not_from_state_file :
  let c := fst (run [Sample.gotIterator "it0";
                     Sample.gotRecords Sample.batch101_105 "it1";
                     Sample.gotError ErrCodeExpiredIteratorException]
                  (Sample.consumer0 Sample.file100)) in
  phase c = Acquiring /\
  persistedToken c = "100" /\
  StartingSequenceNumber (snd (acquireRequest c)) = Some "105" /\
  StartingSequenceNumber (snd (acquireRequest c)) <> Some (persistedToken c).
Proof. vm_compute. repeat split. discriminate. Qed.

End ConsumerRuns.

(** ** The queue consumer *)

Section QueueFacts.
Import Queue.
Context {P K : Type}
  `{!ProcessorSet P, !Clock K, !EntryLib, !Strconv, !SqsRequest}.
Implicit Types (st : State P K) (hcfg : handlerConfig) (v : Message).

(** A batch is handled front to back, and its tail only if the front did not
    end the function. *)
Lemma handleMessages_app hcfg pre post st :
  handleMessages hcfg (pre ++ post) st =
  match handleMessages hcfg pre st with
  | (st1, ev1, Returned) => (st1, ev1, Returned)
  | (st1, ev1, Looping) =>
      let '(st2, ev2, status) := handleMessages hcfg post st1 in
      (st2, ev1 ++ ev2, status)
  end.
Proof.
  revert st. induction pre as [|v pre IH]; intros st; simpl.
  - by destruct (handleMessages hcfg post st) as [[st2 ev2] status].
  - destruct (handleMessage hcfg v st) as [[st1 ev1] [err|]]; [done|].
    rewrite IH.
    destruct (handleMessages hcfg pre st1) as [[st2 ev2] [|]]; [|done].
    destruct (handleMessages hcfg post st2) as [[st3 ev3] status].
    by rewrite app_assoc.
Qed.

Lemma queue_processed_app (evs1 evs2 : list Event) :
  processed (evs1 ++ evs2) = processed evs1 ++ processed evs2.
Proof.
  induction evs1 as [|[req|l|ent] evs1 IH]; simpl; [done..|].
  by rewrite IH.
Qed.

(** C4: when [ProcessContext] returns an error for the entry of a message,
    the loop over the batch stops there and [queueRunner] returns: the trace
    ends with the hand-over of that entry and the log line, no entry of a
    later message of the batch is handed over, and no further round is
    run. *)
Theorem processor_error_ends_queue_task
    hcfg out pre v post rest st st1 ev1 k ent evs ps err :
  Validate (request hcfg) = None ->
  Messages out = pre ++ v :: post ->
  handleMessages hcfg pre st = (st1, ev1, Looping) ->
  buildEntry hcfg v (clock st1) = (k, ent, evs) ->
  ProcessContext (proc st1) ent = (ps, Some err) ->
  let trace := ev1 ++ evs ++ [EvProcess ent; EvLog (LgSending err)] in
  handleMessages hcfg (Messages out) st = (mkState ps k, trace, Returned) /\
  queueRunner hcfg (Answer (Some out) None :: rest) st =
    (mkState ps k, EvReceiveMessage (request hcfg) :: trace, Returned) /\
  processed trace = processed ev1 ++ processed evs ++ [ent].
Proof.
  intros Hvalid Hout Hpre Hent Hproc trace.
  assert (Hbatch : handleMessages hcfg (Messages out) st
                   = (mkState ps k, trace, Returned)).
  { rewrite Hout, handleMessages_app, Hpre. simpl.
    unfold handleMessage. rewrite Hent, Hproc. reflexivity. }
  repeat split.
  - exact Hbatch.
  - simpl. unfold round. fold (request hcfg). rewrite Hvalid, Hbatch.
    reflexivity.
  - unfold trace. rewrite !queue_processed_app. reflexivity.
Qed.

(** A message without the attribute, when time stamps are not ignored, gets
    the zero time stamp and a log line; the clock is not read. *)
Lemma buildEntry_missing_timestamp hcfg v (k : K) :
  ignoreTimestamps hcfg = false ->
  Attributes v !! "SentTimestamp" = None ->
  buildEntry hcfg v k =
  (k,
   mkEntry zeroTimestamp (src hcfg) (tag hcfg)
     (String.list_byte_of_string (Body v)),
   [EvLog (LgNoTimestamp (Attributes v))]).
Proof.
  intros Hign Hattr. unfold buildEntry, messageTS. by rewrite Hign, Hattr.
Qed.

(** C8: with [ignoreTimestamps] false, a message of a batch that lacks the
    [SentTimestamp] attribute is logged as such and its entry, with the zero
    time stamp, is handed to the processor set like any other; the messages
    before it are handled as they would be without it, and so are the
    messages after it unless the processor set rejects its entry. *)
Theorem missing_timestamp_entry_still_sent hcfg pre v post st :
  ignoreTimestamps hcfg = false ->
  Attributes v !! "SentTimestamp" = None ->
  let ent :=
    mkEntry zeroTimestamp (src hcfg) (tag hcfg)
      (String.list_byte_of_string (Body v)) in
  let logged := EvLog (LgNoTimestamp (Attributes v)) in
  handleMessages hcfg (pre ++ v :: post) st =
  match handleMessages hcfg pre st with
  | (st1, ev1, Returned) => (st1, ev1, Returned)
  | (st1, ev1, Looping) =>
      match ProcessContext (proc st1) ent with
      | (ps, Some e) =>
          (mkState ps (clock st1),
           ev1 ++ [logged; EvProcess ent; EvLog (LgSending e)], Returned)
      | (ps, None) =>
          let '(st3, ev3, status) :=
            handleMessages hcfg post (mkState ps (clock st1)) in
          (st3, ev1 ++ [logged; EvProcess ent] ++ ev3, status)
      end
  end.
Proof.
  intros Hign Hattr ent logged. rewrite handleMessages_app.
  destruct (handleMessages hcfg pre st) as [[st1 ev1] [|]]; [|done].
  simpl. unfold handleMessage.
  rewrite (buildEntry_missing_timestamp hcfg v (clock st1) Hign Hattr).
  fold ent. destruct (ProcessContext (proc st1) ent) as [ps [e|]]; [done|].
  destruct (handleMessages hcfg post (mkState ps (clock st1)))
    as [[st3 ev3] status].
  reflexivity.
Qed.

End QueueFacts.

(** *** The queue consumer on concrete batches *)

Section QueueRuns.
Import Queue Sample.

Lemma processor_error_ends_queue_task_witness :
  let out := mkReceiveMessageOutput
               [stamped "a"; stamped EmptyString; stamped "c"] in
  processed
    (snd (fst (queueRunner hcfg0
                 [Answer (Some out) None;
                  Answer (Some (mkReceiveMessageOutput [stamped "d"])) None]
                 qstate0)))
  = [mkEntry (mkTimestamp 1600000000 0) None 2 (bytes "a");
     mkEntry (mkTimestamp 1600000000 0) None 2 []].
Proof.
  intros out.
  pose proof (processor_error_ends_queue_task hcfg0 out
                [stamped "a"] (stamped EmptyString) [stamped "c"]
                [Answer (Some (mkReceiveMessageOutput [stamped "d"])) None]
                qstate0
                (mkState [mkEntry (mkTimestamp 1600000000 0) None 2 (bytes "a")] 0)
                [EvProcess (mkEntry (mkTimestamp 1600000000 0) None 2 (bytes "a"))]
                0 (mkEntry (mkTimestamp 1600000000 0) None 2 []) []
                [mkEntry (mkTimestamp 1600000000 0) None 2 (bytes "a");
                 mkEntry (mkTimestamp 1600000000 0) None 2 []]
                (PlainError "empty entry")
                eq_refl eq_refl eq_refl eq_refl eq_refl) as (_ & Hrun & _).
  rewrite Hrun. reflexivity.
Defined.

Lemma missing_timestamp_entry_still_sent_witness :
  processed
    (snd (fst (handleMessages hcfg0 [stamped "a"; unstamped "b"; stamped "c"]
                 qstate0)))
  = [mkEntry (mkTimestamp 1600000000 0) None 2 (bytes "a");
     mkEntry zeroTimestamp None 2 (bytes "b");
     mkEntry (mkTimestamp 1600000000 0) None 2 (bytes "c")].
Proof.
  rewrite (missing_timestamp_entry_still_sent hcfg0
             [stamped "a"] (unstamped "b") [stamped "c"] qstate0
             eq_refl eq_refl).
  reflexivity.
Defined.

End QueueRuns.

(** ** Batches, checkpoints and time stamps *)

Section BatchFacts.
Import Shard.
Context {P TG : Type} `{!ProcessorSet P, !TimeGrinder TG, !EntryLib}.
Implicit Types (c : Consumer P TG) (e : Env) (evs : list Event)
  (l : @LoopState P TG) (recs : list Record_).

(** *** Reading traces *)

Lemma checkpointWrites_app evs1 evs2 :
  checkpointWrites (evs1 ++ evs2) = checkpointWrites evs1 ++ checkpointWrites evs2.
Proof.
  induction evs1 as [|ev evs1 IH]; [done|].
  destruct ev; simpl; by rewrite ?IH.
Qed.

Lemma processed_app evs1 evs2 :
  processed (evs1 ++ evs2) = processed evs1 ++ processed evs2.
Proof.
  induction evs1 as [|ev evs1 IH]; [done|].
  destruct ev; simpl; by rewrite ?IH.
Qed.

Lemma sleeps_app evs1 evs2 :
  sleeps (evs1 ++ evs2) = sleeps evs1 ++ sleeps evs2.
Proof.
  induction evs1 as [|ev evs1 IH]; [done|].
  destruct ev; simpl; by rewrite ?IH.
Qed.

(** *** The loop over the records *)

(** The events of one record: at most one extraction, the hand-over, at most
    one log line. *)
Lemma handleRecord_events tag ip r l :
  checkpointWrites (snd (handleRecord tag ip r l)) = [] /\
  sleeps (snd (handleRecord tag ip r l)) = [] /\
  EntData <$> processed (snd (handleRecord tag ip r l)) = [Data r] /\
  lLast (fst (handleRecord tag ip r l)) = SequenceNumber r.
Proof.
  unfold handleRecord, chooseTS.
  destruct (lParse l); simpl.
  - destruct (Extract (lTg l) (Data r)) as [g' [[ts ok] err]].
    destruct (negb ok || bool_decide (err <> None));
      destruct (ProcessContext _ _) as [ps [perr|]]; simpl; done.
  - destruct (ProcessContext _ _) as [ps [perr|]]; simpl; done.
Qed.

Lemma handleRecords_events tag ip recs l :
  checkpointWrites (snd (handleRecords tag ip recs l)) = [] /\
  sleeps (snd (handleRecords tag ip recs l)) = [] /\
  EntData <$> processed (snd (handleRecords tag ip recs l)) = Data <$> recs /\
  lLast (fst (handleRecords tag ip recs l))
  = default (lLast l) (SequenceNumber <$> last recs).
Proof.
  revert l. induction recs as [|r recs IH]; intros l; simpl; [done|].
  pose proof (handleRecord_events tag ip r l) as (Hw & Hs & Hp & Hl).
  destruct (handleRecord tag ip r l) as [l1 ev1]. simpl in *.
  specialize (IH l1) as (IHw & IHs & IHp & IHl).
  destruct (handleRecords tag ip recs l1) as [l2 ev2]. simpl in *.
  rewrite checkpointWrites_app, sleeps_app, processed_app, fmap_app.
  rewrite Hw, Hs, Hp, IHw, IHs, IHp, IHl, Hl.
  repeat split. destruct recs as [|r' recs]; [done|].
  simpl. destruct (last (r' :: recs)) eqn:E; [done|].
  apply last_None in E. discriminate.
Qed.

(** *** One successful call of [GetRecords] *)

Lemma sameIdentity_refl c : sameIdentity c c.
Proof. by repeat split. Qed.

Lemma sameIdentity_trans c1 c2 c3 :
  sameIdentity c1 c2 -> sameIdentity c2 c3 -> sameIdentity c1 c3.
Proof.
  unfold sameIdentity. intros (?&?&?&?) (?&?&?&?). repeat split; congruence.
Qed.

(** The trace and the outcome of a batch, in terms of the loop over its
    records. *)
Lemma handleBatch_spec out iter last c :
  let lp := handleRecords (tagid c) (src c) (Records out)
              (mkLoop (Parse_Time (stream c)) (tg c) (procset c) last 0) in
  let last' := lLast (fst lp) in
  snd (handleBatch out iter last c)
  = snd lp ++ EvTrackerUpdate out (lSize (fst lp)) :: writeEvents c last' /\
  phase (fst (handleBatch out iter last c)) = Streaming iter last' /\
  Parse_Time (stream (fst (handleBatch out iter last c))) = lParse (fst lp) /\
  sameIdentity c (fst (handleBatch out iter last c)) /\
  stateMan (fst (handleBatch out iter last c))
  = (if decide (last' = EmptyString) then stateMan c
     else Stateman.UpdateSequenceNum (Stream_Name (stream c))
            (ShardId (shard c)) last' (stateMan c)).
Proof.
  unfold handleBatch, writeEvents. simpl.
  destruct (handleRecords _ _ (Records out) _) as [l evs]. simpl.
  destruct (decide (lLast l = EmptyString)); simpl; by repeat split.
Qed.

Lemma fetch_success gri iter last out c :
  fetch gri iter last (Some out, None) c =
  (fst (handleBatch out (nextIter (Some out) iter) last c),
   EvGetRecords gri ::
     (if decide (length (Records out) = 0%nat) then [EvSleep 100] else [])
     ++ snd (handleBatch out (nextIter (Some out) iter) last c)).
Proof.
  unfold fetch. by destruct (handleBatch out _ last c).
Qed.

End BatchFacts.

Section StepFacts.
Import Shard.
Context {P TG : Type} `{!ProcessorSet P, !TimeGrinder TG, !EntryLib}.
Implicit Types (c : Consumer P TG) (e : Env) (evs : list Event).

Lemma quiet_trace evs tag ip pool :
  Forall quiet evs ->
  checkpointWrites evs = [] /\ processed evs = [] /\
  Forall (fallenBack tag ip pool) evs.
Proof.
  induction 1 as [|ev evs Hq _ (IHw & IHp & IHf)]; [done|].
  destruct ev; simpl in *; try done; by repeat split; try constructor.
Qed.

Lemma fetches_nextRequest e c :
  fetches e c = true -> is_Some (nextRequest c).
Proof.
  unfold fetches, nextRequest. destruct (phase c); try discriminate; eauto.
Qed.

(** A step either gets a batch or does not; this is decidable on the
    step's inputs. *)
Lemma getsBatch_dec e c :
  (exists out, getsBatch e c out) \/ (forall out, ~ getsBatch e c out).
Proof.
  unfold getsBatch. destruct (fetches e c); [|right; intros out [? _]; done].
  destruct (recordsResult e) as [[out|] [err|]];
    try (right; intros out' [_ ?]; congruence).
  left. eauto.
Qed.

Lemma step_batch e c out :
  getsBatch e c out ->
  exists gri iter last,
    nextRequest c = Some gri /\ lastSeqNumOf c = Some last /\
    step e c =
    (fst (handleBatch out iter last c),
     EvGetRecords gri ::
       (if decide (length (Records out) = 0%nat) then [EvSleep 100] else [])
       ++ snd (handleBatch out iter last c)).
Proof.
  intros [Hf Hres].
  destruct (fetches_nextRequest e c Hf) as [gri Hreq].
  destruct (step_fetches e c gri Hreq Hf) as (iter & last & Hlast & Hstep).
  exists gri, (nextIter (Some out) iter), last. repeat split; [done..|].
  rewrite Hstep, Hres. apply fetch_success.
Qed.

Lemma storedToken_GetSequenceNum c :
  storedToken
    (set_stateMan
       (fst (Stateman.GetSequenceNum (Stream_Name (stream c))
               (ShardId (shard c)) (stateMan c))) c)
  = storedToken c.
Proof.
  exact (GetSequenceNum_current (Stream_Name (stream c)) (ShardId (shard c))
           (stateMan c) (Stream_Name (stream c)) (ShardId (shard c))).
Qed.

(** A call of [GetRecords] that does not deliver a batch leaves everything
    but the phase as it was. *)
Lemma fetch_no_batch gri iter last res err c :
  (res = None \/ err <> None) ->
  exists ph evs,
    fetch gri iter last (res, err) c = (set_phase ph c, evs) /\
    Forall quiet evs /\
    (ph = Acquiring \/ ph = Panicked \/
     ph = Retrying gri (nextIter res iter) last).
Proof.
  intros Hno. unfold fetch.
  destruct err as [[code message|text]|].
  - repeat case_decide; eexists _, _; (split; [reflexivity|]);
      (split; [repeat constructor|]); eauto.
  - eexists _, _; (split; [reflexivity|]); (split; [repeat constructor|]); eauto.
  - destruct Hno as [->|?]; [|done].
    eexists _, _; (split; [reflexivity|]); (split; [repeat constructor|]); eauto.
Qed.

(** What a step that does not get a batch can change. *)
Lemma step_no_batch e c :
  (forall out, ~ getsBatch e c out) ->
  sameIdentity c (fst (step e c)) /\
  Parse_Time (stream (fst (step e c))) = Parse_Time (stream c) /\
  Forall quiet (snd (step e c)) /\
  storedToken (fst (step e c)) = storedToken c /\
  Stateman.stateFile (stateMan (fst (step e c)))
  = Stateman.stateFile (stateMan c) /\
  (lastSeqNumOf (fst (step e c)) = lastSeqNumOf c \/
   lastSeqNumOf (fst (step e c)) = None \/
   lastSeqNumOf (fst (step e c)) = Some EmptyString).
Proof.
  intros Hno. unfold getsBatch, fetches in Hno. unfold step.
  destruct (phase c) as [|iter last|gri iter last| |] eqn:Hph.
  - (* acquiring *)
    unfold acquire, acquireRequest.
    pose proof (storedToken_GetSequenceNum c) as Htok.
    destruct (Stateman.GetSequenceNum _ _ (stateMan c)) as [sm seqnum] eqn:Hget.
    assert (Hfile : Stateman.stateFile sm = Stateman.stateFile (stateMan c)).
    { pose proof (GetSequenceNum_stateFile (Stream_Name (stream c))
                    (ShardId (shard c)) (stateMan c)) as Hsf.
      by rewrite Hget in Hsf. }
    simpl in Htok.
    destruct (iterResult e) as [output [err|]]; simpl.
    + unfold lastSeqNumOf. simpl. rewrite Hph.
      repeat split; try done; [repeat constructor|by left].
    + destruct (ShardIterator output) as [it|]; simpl.
      * unfold lastSeqNumOf. simpl.
        repeat split; try done; [repeat constructor|by right; right].
      * unfold lastSeqNumOf. simpl. rewrite Hph.
        repeat split; try done; [repeat constructor|by left].
  - (* at the head of the loop *)
    destruct (running e) eqn:Hrun.
    + destruct (recordsResult e) as [res err] eqn:Hres.
      destruct (fetch_no_batch (mkGri (Some 5000) (Some iter)) iter last res err c)
        as (ph & evs & Hfetch & Hq & Hcases).
      { destruct res as [out|]; [|by left]. right. intros ->.
        by apply (Hno out). }
      rewrite Hfetch. simpl. unfold lastSeqNumOf. simpl. rewrite Hph.
      repeat split; try done.
      destruct Hcases as [->|[->| ->]]; eauto.
    + unfold shutdown. destruct (ProcClose (procset c)) as [ps [err|]]; simpl;
        unfold lastSeqNumOf; simpl;
        (repeat split; try done; [repeat constructor|by right; left]).
  - (* retrying *)
    destruct (recordsResult e) as [res err] eqn:Hres.
    destruct (fetch_no_batch gri iter last res err c)
      as (ph & evs & Hfetch & Hq & Hcases).
    { destruct res as [out|]; [|by left]. right. intros ->.
      by apply (Hno out). }
    rewrite Hfetch. simpl. unfold lastSeqNumOf. simpl. rewrite Hph.
    repeat split; try done.
    destruct Hcases as [->|[->| ->]]; eauto.
  - simpl. repeat split; try done. by left.
  - simpl. repeat split; try done. by left.
Qed.

End StepFacts.

Section CheckpointFacts.
Import Shard.
Context {P TG : Type} `{!ProcessorSet P, !TimeGrinder TG, !EntryLib}.
Implicit Types (c : Consumer P TG) (e : Env) (evs : list Event).

(** The outcome of a step that gets a batch: the call, the idle sleep of an
    empty batch, the hand-over of the records, the metrics, and the write
    guard on [lastSeqNum]. *)
Lemma step_batch_outcome e c out :
  getsBatch e c out ->
  exists gri lastSeqNum evs sz,
    nextRequest c = Some gri /\
    lastSeqNumOf c = Some lastSeqNum /\
    let last' := default lastSeqNum (SequenceNumber <$> last (Records out)) in
    snd (step e c) =
      EvGetRecords gri ::
        (if decide (length (Records out) = 0%nat) then [EvSleep 100] else [])
        ++ evs ++ EvTrackerUpdate out sz :: writeEvents c last' /\
    checkpointWrites evs = [] /\ sleeps evs = [] /\
    EntData <$> processed evs = Data <$> Records out /\
    (Records out = [] -> evs = [] /\ sz = 0) /\
    lastSeqNumOf (fst (step e c)) = Some last' /\
    sameIdentity c (fst (step e c)) /\
    stateMan (fst (step e c)) =
      (if decide (last' = EmptyString) then stateMan c
       else Stateman.UpdateSequenceNum (Stream_Name (stream c))
              (ShardId (shard c)) last' (stateMan c)).
Proof.
  intros Hb.
  destruct (step_batch e c out Hb) as (gri & iter & lastSeqNum & Hreq & Hlast & Hstep).
  pose proof (handleBatch_spec out iter lastSeqNum c) as Hspec.
  pose proof (handleRecords_events (tagid c) (src c) (Records out)
                (mkLoop (Parse_Time (stream c)) (tg c) (procset c) lastSeqNum 0))
    as (Hw & Hs & Hp & Hl).
  assert (Hnil : Records out = [] ->
                 handleRecords (tagid c) (src c) (Records out)
                   (mkLoop (Parse_Time (stream c)) (tg c) (procset c)
                      lastSeqNum 0)
                 = (mkLoop (Parse_Time (stream c)) (tg c) (procset c)
                      lastSeqNum 0, [])).
  { by intros ->. }
  set (lp := handleRecords (tagid c) (src c) (Records out)
               (mkLoop (Parse_Time (stream c)) (tg c) (procset c) lastSeqNum 0))
    in *.
  simpl in Hspec. destruct Hspec as (Hev & Hph & _ & Hid & Hsm).
  simpl in Hl. rewrite Hl in Hev, Hph, Hsm.
  exists gri, lastSeqNum, (snd lp), (lSize (fst lp)).
  rewrite Hstep. simpl. rewrite Hev, Hsm. unfold lastSeqNumOf. rewrite Hph.
  split; [done|]. split; [done|]. split; [done|]. split; [done|].
  split; [done|]. split; [done|].
  split; [intros Hempty; by rewrite (Hnil Hempty)|].
  split; [done|]. split; [exact Hid|done].
Qed.

Lemma storedToken_sameIdentity c c' :
  sameIdentity c c' ->
  storedToken c' =
  Stateman.current (Stream_Name (stream c)) (ShardId (shard c)) (stateMan c').
Proof. intros (Hn & Hs & _). unfold storedToken. by rewrite Hn, Hs. Qed.

Lemma step_sameIdentity e c : sameIdentity c (fst (step e c)).
Proof.
  destruct (getsBatch_dec e c) as [[out Hb]|Hno].
  - destruct (step_batch_outcome e c out Hb)
      as (? & ? & ? & ? & _ & _ & _ & _ & _ & _ & _ & _ & Hid & _).
    exact Hid.
  - apply (step_no_batch e c Hno).
Qed.

Lemma tick_sameIdentity t c : sameIdentity c (fst (tick t c)).
Proof. destruct t; [apply step_sameIdentity|by repeat split]. Qed.

Lemma run_sameIdentity ts c : sameIdentity c (fst (run ts c)).
Proof.
  revert c. induction ts as [|t ts IH]; intros c; simpl.
  - apply sameIdentity_refl.
  - pose proof (tick_sameIdentity t c) as H1.
    destruct (tick t c) as [c1 ev1]. specialize (IH c1).
    destruct (run ts c1) as [c2 ev2]. simpl in *.
    eapply sameIdentity_trans; eauto.
Qed.

(** [lastSeqNum], when it is not empty, is the token the checkpoint store
    holds: every step keeps it so. *)
Lemma step_tokenInSync e c : tokenInSync c -> tokenInSync (fst (step e c)).
Proof.
  intros Hinv. unfold tokenInSync in *.
  destruct (getsBatch_dec e c) as [[out Hb]|Hno].
  - destruct (step_batch_outcome e c out Hb)
      as (gri & lastSeqNum & evs & sz & _ & Hlast & _ & _ & _ & _ & _ & Hlast'
          & Hid & Hsm).
    rewrite Hlast'. simpl in Hsm.
    destruct (decide (default lastSeqNum (SequenceNumber <$> last (Records out))
                      = EmptyString)) as [Hempty|Hne]; [by left|].
    right. rewrite (storedToken_sameIdentity c _ Hid), Hsm.
    apply UpdateSequenceNum_current.
  - destruct (step_no_batch e c Hno) as (_ & _ & _ & Htok & _ & Hcases).
    destruct Hcases as [Heq|[Heq|Heq]]; rewrite Heq; [|done|by left].
    destruct (lastSeqNumOf c); [|done]. by rewrite Htok.
Qed.

Lemma tick_tokenInSync t c : tokenInSync c -> tokenInSync (fst (tick t c)).
Proof. destruct t; [apply step_tokenInSync|done]. Qed.

Lemma run_tokenInSync ts c : tokenInSync c -> tokenInSync (fst (run ts c)).
Proof.
  revert c. induction ts as [|t ts IH]; intros c Hinv; simpl; [done|].
  pose proof (tick_tokenInSync t c Hinv) as H1.
  destruct (tick t c) as [c1 ev1]. specialize (IH c1 H1).
  by destruct (run ts c1) as [c2 ev2].
Qed.

Lemma newConsumer_tokenInSync st sh i tag ip (g : TG) (ps : P) sm :
  tokenInSync (newConsumer st sh i tag ip g ps sm).
Proof. done. Qed.

(** Successful calls and flushes keep the consumer inside [for running]. *)
Lemma run_batches_in_loop ts outs c :
  is_Some (nextRequest c) -> batchesOf ts = Some outs ->
  is_Some (nextRequest (fst (run ts c))).
Proof.
  revert outs c. induction ts as [|t ts IH]; intros outs c Hin Hb; simpl; [done|].
  destruct t as [e|]; simpl in Hb.
  - destruct (running e) eqn:Hrun; [|done].
    destruct (recordsResult e) as [[out|] [err|]] eqn:Hres; try done.
    destruct (batchesOf ts) as [outs'|] eqn:Hrest; [|done].
    assert (Hgets : getsBatch e c out).
    { split; [|done]. unfold fetches. unfold nextRequest in Hin.
      destruct (phase c); done. }
    destruct (step_batch_outcome e c out Hgets)
      as (? & ? & ? & ? & _ & _ & _ & _ & _ & _ & _ & Hlast' & _).
    simpl. destruct (step e c) as [c1 ev1]. simpl in Hlast'.
    specialize (IH outs' c1). destruct (run ts c1) as [c2 ev2]. simpl in *.
    apply (IH); [|done]. unfold lastSeqNumOf in Hlast'. unfold nextRequest.
    destruct (phase c1); try done; eauto.
  - simpl. specialize (IH outs (set_stateMan (Stateman.Flush (stateMan c)) c)).
    destruct (run ts _) as [c2 ev2]. simpl in *. by apply IH.
Qed.

Lemma batchesOf_app ts1 ts2 outs1 outs2 :
  batchesOf ts1 = Some outs1 -> batchesOf ts2 = Some outs2 ->
  batchesOf (ts1 ++ ts2) = Some (outs1 ++ outs2).
Proof.
  revert outs1. induction ts1 as [|t ts1 IH]; intros outs1 H1 H2; simpl in *.
  - by injection H1 as <-.
  - destruct t as [e|]; [|by apply IH].
    destruct (running e); [|done].
    destruct (recordsResult e) as [[out|] [err|]]; try done.
    destruct (batchesOf ts1) as [outs'|]; [|done].
    injection H1 as <-. by rewrite (IH outs' eq_refl H2).
Qed.

End CheckpointFacts.

Section CheckpointClaims.
Import Shard.
Context {P TG : Type} `{!ProcessorSet P, !TimeGrinder TG, !EntryLib}.
Implicit Types (c : Consumer P TG) (e : Env) (evs : list Event).

(** C2: let a consumer inside [for running] get any number of batches, each
    call succeeding, with flushes of the store in between, and then one more
    batch with at least one record, the last being [r].  The step of that
    batch hands every record of the batch to the processor set, then updates
    the metrics, and only then writes the checkpoint, once, with the
    sequence number of [r]; afterwards the store holds that token for the
    shard.  The sequence numbers the service issues are never the empty
    string, which the code keeps for "no record yet"; that is the last
    hypothesis. *)
Theorem checkpoint_written_after_batch ticks outs e c out r :
  is_Some (nextRequest c) ->
  batchesOf ticks = Some outs ->
  running e = true ->
  recordsResult e = (Some out, None) ->
  last (Records out) = Some r ->
  SequenceNumber r <> EmptyString ->
  batchesOf (ticks ++ [Source e]) = Some (outs ++ [out]) /\
  (exists gri evs sz,
     snd (run (ticks ++ [Source e]) c) =
       snd (run ticks c) ++
       EvGetRecords gri :: evs ++
       [EvTrackerUpdate out sz;
        EvUpdateSequenceNum (Stream_Name (stream c)) (ShardId (shard c))
          (SequenceNumber r)] /\
     EntData <$> processed evs = Data <$> Records out /\
     checkpointWrites evs = []) /\
  storedToken (fst (run (ticks ++ [Source e]) c)) = SequenceNumber r.
Proof.
  intros Hin Hbs Hrun Hres Hlast Hne.
  split.
  { apply batchesOf_app; [done|]. simpl. by rewrite Hrun, Hres. }
  rewrite run_app. simpl fst. simpl snd.
  pose proof (run_batches_in_loop ticks outs c Hin Hbs) as Hin1.
  pose proof (run_sameIdentity ticks c) as Hid1.
  set (c1 := fst (run ticks c)) in *.
  assert (Hgets : getsBatch e c1 out).
  { split; [|done]. unfold fetches. unfold nextRequest in Hin1.
    destruct (phase c1); done. }
  destruct (step_batch_outcome e c1 out Hgets)
    as (gri & lastSeqNum & evs & sz & _ & _ & Hev & Hw & _ & Hp & _ & _
        & Hid & Hsm).
  simpl in Hev, Hsm. rewrite Hlast in Hev, Hsm. simpl in Hev, Hsm.
  assert (Hlen : length (Records out) <> 0%nat).
  { intros Hlen. apply length_zero_iff_nil in Hlen.
    rewrite Hlen in Hlast. discriminate. }
  rewrite decide_False in Hev by exact Hlen.
  unfold writeEvents in Hev. rewrite decide_False in Hev by exact Hne.
  rewrite decide_False in Hsm by exact Hne.
  destruct Hid1 as (Hname & Hshard & _).
  rewrite Hname, Hshard in Hev, Hsm.
  simpl. destruct (step e c1) as [c2 ev2] eqn:Hstep. simpl in *.
  split.
  - exists gri, evs, sz. rewrite app_nil_r, Hev. by repeat split.
  - assert (Hid2 : sameIdentity c c2).
    { eapply sameIdentity_trans; [|exact Hid].
      repeat split; try done; apply (run_sameIdentity ticks c). }
    rewrite (storedToken_sameIdentity c c2 Hid2), Hsm.
    apply UpdateSequenceNum_current.
Qed.

(** C3, as the code has it: a consumer that was started at the top of
    [reconnectLoop] and, after any run, gets two empty batches in a row
    sleeps 100 ms after each call and hands nothing to the processor set;
    after each of the two it calls [UpdateSequenceNum] when [lastSeqNum] is
    not empty, that is when it handled a record since it last acquired an
    iterator, and that write stores the token the store already holds: the
    checkpoint store and [lastSeqNum] end as they were. *)
Theorem empty_batches_keep_checkpoint
    st sh i tag ip (g : TG) (ps : P) sm ticks e1 e2 out1 out2 :
  let c := fst (run ticks (newConsumer st sh i tag ip g ps sm)) in
  getsBatch e1 c out1 ->
  Records out1 = [] ->
  running e2 = true ->
  recordsResult e2 = (Some out2, None) ->
  Records out2 = [] ->
  exists gri1 gri2 lastSeqNum,
    nextRequest c = Some gri1 /\
    lastSeqNumOf c = Some lastSeqNum /\
    (lastSeqNum <> EmptyString -> storedToken c = lastSeqNum) /\
    snd (run [Source e1; Source e2] c) =
      [EvGetRecords gri1; EvSleep 100; EvTrackerUpdate out1 0]
      ++ writeEvents c lastSeqNum
      ++ [EvGetRecords gri2; EvSleep 100; EvTrackerUpdate out2 0]
      ++ writeEvents c lastSeqNum /\
    stateMan (fst (run [Source e1; Source e2] c)) = stateMan c /\
    lastSeqNumOf (fst (run [Source e1; Source e2] c)) = Some lastSeqNum.
Proof.
  intros c Hgets1 Hnil1 Hrun2 Hres2 Hnil2.
  assert (Hsync : tokenInSync c).
  { apply run_tokenInSync, newConsumer_tokenInSync. }
  (* an empty batch rewrites the stored token, if it writes at all *)
  assert (Hsame : forall c' lastSeqNum,
             sameIdentity c c' -> stateMan c' = stateMan c ->
             (lastSeqNum <> EmptyString -> storedToken c = lastSeqNum) ->
             (if decide (lastSeqNum = EmptyString) then stateMan c'
              else Stateman.UpdateSequenceNum (Stream_Name (stream c'))
                     (ShardId (shard c')) lastSeqNum (stateMan c'))
             = stateMan c).
  { intros c' l (Hn & Hs & _) Hsm Htok.
    destruct (decide (l = EmptyString)) as [|Hl]; [done|].
    rewrite Hn, Hs, Hsm.
    pose proof (UpdateSequenceNum_same (Stream_Name (stream c))
                  (ShardId (shard c)) l (stateMan c) Hl (Htok Hl)) as Hst.
    unfold Stateman.UpdateSequenceNum in *. simpl in Hst. rewrite Hst.
    by destruct (stateMan c). }
  destruct (step_batch_outcome e1 c out1 Hgets1)
    as (gri1 & lastSeqNum & evs1 & sz1 & Hreq1 & Hlast1 & Hev1 & _ & _ & _
        & Hempty1 & Hlast1' & Hid1 & Hsm1).
  destruct (Hempty1 Hnil1) as [-> ->].
  simpl in Hev1, Hlast1', Hsm1. rewrite Hnil1 in Hev1, Hlast1', Hsm1.
  simpl in Hev1, Hlast1', Hsm1.
  assert (Htok : lastSeqNum <> EmptyString -> storedToken c = lastSeqNum).
  { intros Hne. unfold tokenInSync in Hsync. rewrite Hlast1 in Hsync.
    by destruct Hsync. }
  rewrite (Hsame c lastSeqNum (sameIdentity_refl c) eq_refl Htok) in Hsm1.
  simpl. destruct (step e1 c) as [c1 tr1] eqn:Hstep1. simpl in *.
  assert (Hgets2 : getsBatch e2 c1 out2).
  { split; [|done]. unfold fetches. unfold lastSeqNumOf in Hlast1'.
    destruct (phase c1); done. }
  destruct (step_batch_outcome e2 c1 out2 Hgets2)
    as (gri2 & lastSeqNum2 & evs2 & sz2 & Hreq2 & Hlast2 & Hev2 & _ & _ & _
        & Hempty2 & Hlast2' & Hid2 & Hsm2).
  destruct (Hempty2 Hnil2) as [-> ->].
  rewrite Hlast1' in Hlast2. injection Hlast2 as <-.
  simpl in Hev2, Hlast2', Hsm2. rewrite Hnil2 in Hev2, Hlast2', Hsm2.
  simpl in Hev2, Hlast2', Hsm2.
  rewrite (Hsame c1 lastSeqNum Hid1 Hsm1 Htok) in Hsm2.
  destruct (step e2 c1) as [c2 tr2] eqn:Hstep2. simpl in *.
  exists gri1, gri2, lastSeqNum.
  split; [done|]. split; [done|]. split; [done|].
  split; [|by split].
  rewrite Hev1, Hev2, app_nil_r.
  assert (Hwr : writeEvents c1 lastSeqNum = writeEvents c lastSeqNum).
  { destruct Hid1 as (Hn & Hs & _). unfold writeEvents. by rewrite Hn, Hs. }
  rewrite Hwr. reflexivity.
Qed.

End CheckpointClaims.

(** *** Batches and checkpoints on concrete runs *)

Section CheckpointRuns.
Import Shard Sample.

Lemma checkpoint_written_after_batch_witness :
  let c := fst (run [gotIterator "it0"] (consumer0 file100)) in
  let ticks := [gotRecords [record "99" "x" 0] "it1"; FlushTimer] in
  storedToken (fst (run (ticks ++ [gotRecords batch101_105 "it2"]) c)) = "105".
Proof.
  intros c ticks.
  apply (checkpoint_written_after_batch ticks
           [batchOutput [record "99" "x" 0] "it1"]
           (batchEnv batch101_105 "it2") c
           (batchOutput batch101_105 "it2") (record "105" "e" 5)).
  - vm_compute. eauto.
  - reflexivity.
  - reflexivity.
  - reflexivity.
  - reflexivity.
  - discriminate.
Defined.

(** Outside what the service delivers: a record with the empty string as
    its sequence number is handed to the processor set, but the guard on
    [lastSeqNum] then skips the write and the store keeps the token it
    held. *)
Lemma checkpoint_not_written_for_empty_sequence_number :
  let c := fst (run [gotIterator "it0"] (consumer0 file100)) in
  let r := record EmptyString "x" 1 in
  let after := run [gotRecords [r] "it1"] c in
  EntData <$> processed (snd after) = [Data r] /\
  checkpointWrites (snd after) = [] /\
  storedToken (fst after) = "100" /\
  storedToken (fst after) <> SequenceNumber r.
Proof. vm_compute. repeat split. discriminate. Qed.

Lemma empty_batches_keep_checkpoint_witness :
  let c := fst (run [gotIterator "it0"; gotRecords batch101_105 "it1"]
                  (consumer0 file100)) in
  stateMan (fst (run [gotRecords [] "it2"; gotRecords [] "it3"] c)) = stateMan c.
Proof.
  intros c.
  destruct (empty_batches_keep_checkpoint stream0 shard0 0 1 None 0%nat []
              (Stateman.NewStateman file100)
              [gotIterator "it0"; gotRecords batch101_105 "it1"]
              (batchEnv [] "it2") (batchEnv [] "it3")
              (batchOutput [] "it2") (batchOutput [] "it3"))
    as (gri1 & gri2 & l & _ & _ & _ & _ & Hsm & _).
  - split; reflexivity.
  - reflexivity.
  - reflexivity.
  - reflexivity.
  - reflexivity.
  - exact Hsm.
Defined.

(** C3, as the specification has it, fails: after a batch that ended at
    105, each of two empty batches in a row is followed by a checkpoint
    write. *)
Lemma empty_batches_write_checkpoint :
  let c := fst (run [gotIterator "it0"; gotRecords batch101_105 "it1"]
                  (consumer0 file100)) in
  let tr := snd (run [gotRecords [] "it2"; gotRecords [] "it3"] c) in
  processed tr = [] /\ sleeps tr = [100; 100] /\
  checkpointWrites tr = ["105"; "105"] /\
  checkpointWrites tr <> [].
Proof. vm_compute. repeat split. discriminate. Qed.

End CheckpointRuns.

(** ** Time stamps after a failed extraction *)

Section TimestampFacts.
Import Shard.
Context {P TG : Type} `{!ProcessorSet P, !TimeGrinder TG, !EntryLib}.
Implicit Types (c : Consumer P TG) (e : Env) (evs : list Event)
  (pool : list Record_) (tag : Z) (ip : IP).

Lemma fallenBack_mono tag ip pool pool' ev :
  (forall r, r ∈ pool -> r ∈ pool') ->
  fallenBack tag ip pool ev -> fallenBack tag ip pool' ev.
Proof.
  intros Hsub. destruct ev; simpl; try done.
  intros (r & Hr & ->). eauto.
Qed.

Lemma fallenBack_not_failed tag ip pool ev :
  fallenBack tag ip pool ev -> failedExtract ev = false.
Proof. by destruct ev. Qed.

Lemma Forall_fallenBack_mono tag ip pool pool' evs :
  (forall r, r ∈ pool -> r ∈ pool') ->
  Forall (fallenBack tag ip pool) evs -> Forall (fallenBack tag ip pool') evs.
Proof.
  intros Hsub Hall. eapply Forall_impl; [exact Hall|].
  intros ev. by apply fallenBack_mono.
Qed.

Lemma Forall_fallenBack_no_failure tag ip pool evs :
  Forall (fallenBack tag ip pool) evs -> existsb failedExtract evs = false.
Proof.
  induction 1 as [|ev evs Hev _ IH]; [done|].
  simpl. by rewrite (fallenBack_not_failed _ _ _ _ Hev), IH.
Qed.

Lemma settled_mono tag ip pool pool' evs :
  (forall r, r ∈ pool -> r ∈ pool') ->
  settled tag ip pool evs -> settled tag ip pool' evs.
Proof.
  intros Hsub. induction evs as [|ev evs IH]; [done|].
  simpl. intros [Hhead Htail]. split; [|by apply IH].
  intros Hfail. destruct (Hhead Hfail) as [(r & rest' & Hr & Hd & ->) Hall].
  split; [by eauto 6|]. by eapply Forall_fallenBack_mono.
Qed.

Lemma Forall_fallenBack_settled tag ip pool evs :
  Forall (fallenBack tag ip pool) evs -> settled tag ip pool evs.
Proof.
  induction 1 as [|ev evs Hev _ IH]; [done|].
  simpl. split; [|done]. intros Hfail.
  by rewrite (fallenBack_not_failed _ _ _ _ Hev) in Hfail.
Qed.

Lemma settled_app tag ip pool evs1 evs2 :
  settled tag ip pool evs1 -> settled tag ip pool evs2 ->
  (existsb failedExtract evs1 = true -> Forall (fallenBack tag ip pool) evs2) ->
  settled tag ip pool (evs1 ++ evs2).
Proof.
  induction evs1 as [|ev evs1 IH]; [done|].
  simpl. intros [Hhead Htail] H2 Hlater. split.
  - intros Hfail. destruct (Hhead Hfail) as [(r & rest' & Hr & Hd & ->) Hall].
    split; [by exists r, (rest' ++ evs2)|].
    apply Forall_app. split; [done|]. apply Hlater. by rewrite Hfail.
  - apply IH; [done..|]. intros Hex. apply Hlater. rewrite Hex.
    by destruct (failedExtract ev).
Qed.

(** What [settled] says of a failed extraction anywhere in the trace. *)
Lemma settled_split tag ip pool before ev after :
  settled tag ip pool (before ++ ev :: after) ->
  failedExtract ev = true ->
  (exists r rest,
     r ∈ pool /\ extractedData ev = Some (Data r) /\
     after = EvProcess (sourceStamped tag ip r) :: rest) /\
  Forall (fallenBack tag ip pool) after.
Proof.
  induction before as [|ev' before IH]; simpl.
  - intros [Hhead _] Hfail. exact (Hhead Hfail).
  - intros [_ Htail]. by apply IH.
Qed.

Lemma existsb_failed_split before ev after :
  failedExtract ev = true ->
  existsb failedExtract (before ++ ev :: after) = true.
Proof.
  intros Hfail. rewrite existsb_app. simpl. rewrite Hfail.
  by destruct (existsb failedExtract before).
Qed.

(** *** Composition of stretches *)

Lemma fallsBack_mono tag ip pool pool' parse parse' evs :
  (forall r, r ∈ pool -> r ∈ pool') ->
  fallsBack tag ip pool parse parse' evs ->
  fallsBack tag ip pool' parse parse' evs.
Proof.
  intros Hsub (Hs & Hf & Hoff). split; [by eapply settled_mono|].
  split; [done|]. intros Hp. destruct (Hoff Hp) as [? Hall].
  split; [done|]. by eapply Forall_fallenBack_mono.
Qed.

Lemma fallsBack_app tag ip pool p0 p1 p2 evs1 evs2 :
  fallsBack tag ip pool p0 p1 evs1 ->
  fallsBack tag ip pool p1 p2 evs2 ->
  fallsBack tag ip pool p0 p2 (evs1 ++ evs2).
Proof.
  intros (Hs1 & Hf1 & Hoff1) (Hs2 & Hf2 & Hoff2). split; [|split].
  - apply settled_app; [done..|]. intros Hex. by apply Hoff2, Hf1.
  - rewrite existsb_app. intros Hex. apply orb_true_iff in Hex as [Hex|Hex].
    + by apply Hoff2, Hf1.
    + by apply Hf2.
  - intros Hp. destruct (Hoff1 Hp) as [Hp1 Hall1].
    destruct (Hoff2 Hp1) as [Hp2 Hall2].
    split; [done|]. by apply Forall_app.
Qed.

Lemma fallsBack_quiet tag ip pool parse evs :
  Forall quiet evs -> fallsBack tag ip pool parse parse evs.
Proof.
  intros Hq. destruct (quiet_trace evs tag ip pool Hq) as (_ & _ & Hall).
  split; [by apply Forall_fallenBack_settled|]. split; [|done].
  by rewrite (Forall_fallenBack_no_failure _ _ _ _ Hall).
Qed.

Lemma fallsBack_fallenBack tag ip pool parse evs :
  Forall (fallenBack tag ip pool) evs -> fallsBack tag ip pool parse parse evs.
Proof.
  intros Hall. split; [by apply Forall_fallenBack_settled|]. split; [|done].
  by rewrite (Forall_fallenBack_no_failure _ _ _ _ Hall).
Qed.

(** *** From one record to a whole run *)

Lemma handleRecord_fallsBack tag ip r (l : @LoopState P TG) :
  fallsBack tag ip [r] (lParse l) (lParse (fst (handleRecord tag ip r l)))
    (snd (handleRecord tag ip r l)).
Proof.
  assert (Hin : r ∈ [r]) by apply list_elem_of_here.
  assert (Hsrc : forall perr : option error,
             Forall (fallenBack tag ip [r])
               (EvProcess (sourceStamped tag ip r) ::
                  match perr with
                  | Some err => [EvLog (LgHandleEntry err)]
                  | None => []
                  end)).
  { intros perr. constructor; [by exists r|]. destruct perr; by repeat constructor. }
  unfold handleRecord, chooseTS. destruct (lParse l) eqn:Hparse; simpl.
  - destruct (Extract (lTg l) (Data r)) as [g' [[ts ok] err]].
    destruct (negb ok || bool_decide (err <> None)) eqn:Hfailed.
    + (* something went wrong *)
      destruct (ProcessContext (lProc l) _) as [ps perr]. simpl.
      split; [|split; [done|done]].
      split; [|by apply Forall_fallenBack_settled, Hsrc].
      intros _. split; [|by apply Hsrc].
      exists r. eexists. by repeat split.
    + destruct (ProcessContext (lProc l) _) as [ps perr]. simpl.
      split; [|split].
      * simpl. rewrite Hfailed. split; [done|]. split; [done|].
        destruct perr; simpl; by repeat split.
      * simpl. rewrite Hfailed. by destruct perr.
      * done.
  - destruct (ProcessContext (lProc l) _) as [ps perr]. simpl.
    pose proof (fallsBack_fallenBack tag ip [r] false _ (Hsrc perr)) as Hfb.
    exact Hfb.
Qed.

Lemma handleRecords_fallsBack tag ip recs (l : @LoopState P TG) :
  fallsBack tag ip recs (lParse l) (lParse (fst (handleRecords tag ip recs l)))
    (snd (handleRecords tag ip recs l)).
Proof.
  revert l. induction recs as [|r recs IH]; intros l; simpl.
  - by apply fallsBack_fallenBack.
  - pose proof (handleRecord_fallsBack tag ip r l) as H1.
    destruct (handleRecord tag ip r l) as [l1 ev1].
    specialize (IH l1). destruct (handleRecords tag ip recs l1) as [l2 ev2].
    simpl in *. eapply fallsBack_app.
    + eapply fallsBack_mono; [|exact H1].
      intros r' Hr'. apply list_elem_of_singleton in Hr' as ->.
      apply list_elem_of_here.
    + eapply fallsBack_mono; [|exact IH].
      intros r' Hr'. by apply list_elem_of_further.
Qed.

Lemma step_fallsBack e c :
  fallsBack (tagid c) (src c) (delivered (Source e))
    (Parse_Time (stream c)) (Parse_Time (stream (fst (step e c))))
    (snd (step e c)).
Proof.
  destruct (getsBatch_dec e c) as [[out Hb]|Hno].
  - destruct (step_batch e c out Hb) as (gri & iter & lastSeqNum & _ & _ & Hstep).
    pose proof (handleBatch_spec out iter lastSeqNum c) as Hspec.
    simpl in Hspec. destruct Hspec as (Hev & _ & Hparse & _ & _).
    rewrite Hstep. simpl fst. simpl snd. rewrite Hev, Hparse.
    destruct Hb as [_ Hres]. simpl. rewrite Hres.
    apply (fallsBack_app _ _ _ _ (Parse_Time (stream c)) _ [EvGetRecords gri]).
    { apply fallsBack_fallenBack. by repeat constructor. }
    apply (fallsBack_app _ _ _ _ (Parse_Time (stream c))).
    { apply fallsBack_fallenBack.
      destruct (decide (length (Records out) = 0%nat)); by repeat constructor. }
    eapply fallsBack_app.
    { apply (handleRecords_fallsBack (tagid c) (src c) (Records out)
               (mkLoop (Parse_Time (stream c)) (tg c) (procset c) lastSeqNum 0)). }
    apply fallsBack_fallenBack. unfold writeEvents.
    constructor; [done|].
    destruct (decide (lLast _ = EmptyString)); [constructor|].
    constructor; [done|constructor].
  - destruct (step_no_batch e c Hno) as (_ & Hparse & Hq & _).
    rewrite Hparse. by apply fallsBack_quiet.
Qed.

Lemma run_fallsBack ts c :
  fallsBack (tagid c) (src c) (flat_map delivered ts)
    (Parse_Time (stream c)) (Parse_Time (stream (fst (run ts c))))
    (snd (run ts c)).
Proof.
  revert c. induction ts as [|t ts IH]; intros c; simpl.
  - by apply fallsBack_fallenBack.
  - assert (H1 : fallsBack (tagid c) (src c) (delivered t)
                   (Parse_Time (stream c))
                   (Parse_Time (stream (fst (tick t c)))) (snd (tick t c))).
    { destruct t as [e|]; [apply step_fallsBack|].
      by apply fallsBack_fallenBack. }
    pose proof (tick_sameIdentity t c) as (_ & _ & Htag & Hsrc).
    destruct (tick t c) as [c1 ev1]. specialize (IH c1).
    destruct (run ts c1) as [c2 ev2]. simpl in *.
    rewrite Htag, Hsrc in IH. eapply fallsBack_app.
    + eapply fallsBack_mono; [|exact H1].
      intros r Hr. apply elem_of_app. by left.
    + eapply fallsBack_mono; [|exact IH].
      intros r Hr. apply elem_of_app. by right.
Qed.

(** C5: wherever a call of [tg.Extract] fails or finds nothing in the run of
    a consumer, the flag [Parse_Time] of the consumer's copy of the stream
    is off at the end of the run, however long the run goes on; the record
    whose data was given to the extractor is handed over next with the time
    stamp of its metadata; and from there on the trace has no call of
    [tg.Extract], and every entry handed over is the entry of a delivered
    record with the time stamp of the record's metadata. *)
Theorem failed_extraction_disables_parsing
    ticks c before data ts ok err after :
  snd (run ticks c) = before ++ EvExtract data ts ok err :: after ->
  ok = false \/ err <> None ->
  Parse_Time (stream (fst (run ticks c))) = false /\
  (exists r rest,
     r ∈ flat_map delivered ticks /\ data = Data r /\
     after = EvProcess (sourceStamped (tagid c) (src c) r) :: rest) /\
  Forall (fallenBack (tagid c) (src c) (flat_map delivered ticks)) after.
Proof.
  intros Htrace Hfailed.
  assert (Hfail : failedExtract (EvExtract data ts ok err) = true).
  { simpl. destruct Hfailed as [->|Herr]; [done|].
    rewrite (bool_decide_eq_true_2 _ Herr). by destruct ok. }
  destruct (run_fallsBack ticks c) as (Hsettled & Hoff & _).
  rewrite Htrace in Hsettled, Hoff.
  destruct (settled_split _ _ _ _ _ _ Hsettled Hfail)
    as [(r & rest & Hr & Hd & Hafter) Hall].
  split; [by apply Hoff, existsb_failed_split|].
  split; [|done]. exists r, rest. simpl in Hd. injection Hd as ->. done.
Qed.

End TimestampFacts.

(** *** Time stamps on a concrete run *)

Section TimestampRuns.
Import Shard Sample.

Lemma failed_extraction_disables_parsing_witness :
  let ticks := [gotIterator "it0";
                gotRecords [record "101" "T1" 1; record "102" "x" 2;
                            record "103" "T3" 3] "it1";
                gotRecords [record "104" "T4" 4] "it2"] in
  Parse_Time (stream (fst (run ticks parsing0))) = false /\
  processed (snd (run ticks parsing0))
  = [mkEntry (mkTimestamp 7 0) None 1 (bytes "T1");
     mkEntry (mkTimestamp 2 0) None 1 (bytes "x");
     mkEntry (mkTimestamp 3 0) None 1 (bytes "T3");
     mkEntry (mkTimestamp 4 0) None 1 (bytes "T4")].
Proof.
  intros ticks. split; [|reflexivity].
  eapply (failed_extraction_disables_parsing ticks parsing0
            [EvGetSequenceNum "s" "shard-0";
             EvGetShardIterator (mkGsii (Some "shard-0") (Some "s")
                                   (Some "AFTER_SEQUENCE_NUMBER") (Some "100"));
             EvGetRecords (mkGri (Some 5000) (Some "it0"));
             EvExtract (bytes "T1") 7 true None;
             EvProcess (mkEntry (mkTimestamp 7 0) None 1 (bytes "T1"))]
            (bytes "x") 0 false None).
  - reflexivity.
  - by left.
Defined.

End TimestampRuns.

(** * Further properties *)

(** ** The checkpoint store as a map *)

Section StatemanLaws.
Import Stateman.
Implicit Types (s : stateman) (stream shard seq : string).

Lemma UpdateSequenceNum_current_other stream shard seq stream' shard' s :
  ~ (stream = stream' /\ shard = shard') ->
  current stream' shard' (UpdateSequenceNum stream shard seq s)
  = current stream' shard' s.
Proof.
  intros Hne. unfold UpdateSequenceNum, current. simpl.
  rewrite <- (init_stream_index2 stream (states s) stream' shard').
  unfold index2. destruct (decide (stream = stream')) as [->|Hs].
  - rewrite lookup_insert_eq. simpl.
    rewrite lookup_insert_ne by (intros ->; by apply Hne). done.
  - by rewrite lookup_insert_ne.
Qed.

(** Reading after writing: [GetSequenceNum] returns the token of the last
    [UpdateSequenceNum] for the same stream and shard, and for any other
    stream or shard what it returned before the write. *)
Theorem GetSequenceNum_after_Update stream shard seq stream' shard' s :
  snd (GetSequenceNum stream' shard' (UpdateSequenceNum stream shard seq s))
  = if decide (stream = stream' /\ shard = shard') then seq
    else snd (GetSequenceNum stream' shard' s).
Proof.
  rewrite !GetSequenceNum_value. case_decide as Hk.
  - destruct Hk as [<- <-]. apply UpdateSequenceNum_current.
  - by apply UpdateSequenceNum_current_other.
Qed.

(** A second [UpdateSequenceNum] for the same stream and shard replaces the
    first: the store ends as if only the second had been made, and writes to
    different shards can be made in either order. *)
Theorem UpdateSequenceNum_last_write_wins stream shard seq1 seq2 shard' s :
  UpdateSequenceNum stream shard seq2 (UpdateSequenceNum stream shard seq1 s)
  = UpdateSequenceNum stream shard seq2 s /\
  (shard <> shard' ->
   UpdateSequenceNum stream shard seq1 (UpdateSequenceNum stream shard' seq2 s)
   = UpdateSequenceNum stream shard' seq2 (UpdateSequenceNum stream shard seq1 s)).
Proof.
  assert (Hinit : forall m : gmap string (gmap string string),
             m !! stream <> None -> init_stream stream m = m).
  { intros m Hm. unfold init_stream. by destruct (m !! stream). }
  split.
  - unfold UpdateSequenceNum. simpl. f_equal.
    set (m0 := init_stream stream (states s)).
    rewrite Hinit by (by rewrite lookup_insert_eq).
    rewrite lookup_insert_eq. simpl.
    by rewrite insert_insert_eq, insert_insert_eq.
  - intros Hne. unfold UpdateSequenceNum. simpl. f_equal.
    set (m0 := init_stream stream (states s)).
    rewrite !Hinit by (by rewrite lookup_insert_eq).
    rewrite !lookup_insert_eq. simpl.
    rewrite !insert_insert_eq. f_equal. by apply insert_insert_ne.
Qed.

Lemma UpdateSequenceNum_last_write_wins_witness :
  UpdateSequenceNum "s" "shard-0" "7"
    (UpdateSequenceNum "s" "shard-1" "9" (NewStateman Sample.file100))
  = UpdateSequenceNum "s" "shard-1" "9"
      (UpdateSequenceNum "s" "shard-0" "7" (NewStateman Sample.file100)).
Proof.
  apply (UpdateSequenceNum_last_write_wins "s" "shard-0" "7" "9" "shard-1"
           (NewStateman Sample.file100)).
  discriminate.
Defined.

(** Reading is idempotent: after one [GetSequenceNum] for a stream, further
    reads for that stream, of any shard, leave the store as it is; and no
    read changes a token or the state file. *)
Theorem GetSequenceNum_idempotent stream shard shard' stream'' shard'' s :
  let s1 := fst (GetSequenceNum stream shard s) in
  fst (GetSequenceNum stream shard' s1) = s1 /\
  snd (GetSequenceNum stream'' shard'' s1) = snd (GetSequenceNum stream'' shard'' s) /\
  stateFile s1 = stateFile s.
Proof.
  intros s1. split; [|split; [|reflexivity]].
  - subst s1. unfold GetSequenceNum. simpl. f_equal.
    pose proof (init_stream_lookup stream (states s)) as [inner Hin].
    unfold init_stream at 1. by rewrite Hin.
  - subst s1. by rewrite !GetSequenceNum_value, GetSequenceNum_current.
Qed.

End StatemanLaws.

(** ** Counting in the metrics *)

Section MetricsLaws.
Import Metrics Tally.
Implicit Types (s : shardMetrics) (us : list (GetRecordsOutput * Z)).

Lemma uint64_wrap_add_r a b : uint64_wrap (a + uint64_wrap b) = uint64_wrap (a + b).
Proof. unfold uint64_wrap. apply Zplus_mod_idemp_r. Qed.

Lemma uint64_wrap_add_l a b : uint64_wrap (uint64_wrap a + b) = uint64_wrap (a + b).
Proof. unfold uint64_wrap. apply Zplus_mod_idemp_l. Qed.

Lemma uint64_wrap_int64_wrap a : uint64_wrap (int64_wrap a) = uint64_wrap a.
Proof.
  unfold uint64_wrap, int64_wrap. rewrite Zminus_mod_idemp_l.
  f_equal. lia.
Qed.

Lemma int64_wrap_add_l a b : int64_wrap (int64_wrap a + b) = int64_wrap (a + b).
Proof.
  unfold int64_wrap. f_equal.
  replace ((a + 2 ^ 63) mod 2 ^ 64 - 2 ^ 63 + b + 2 ^ 63)
    with ((a + 2 ^ 63) mod 2 ^ 64 + b) by lia.
  rewrite Zplus_mod_idemp_l. f_equal. lia.
Qed.

Lemma int64_wrap_small a : - 2 ^ 63 <= a < 2 ^ 63 -> int64_wrap a = a.
Proof.
  intros Ha. unfold int64_wrap. change (2 ^ 64) with (2 * 2 ^ 63).
  set (h := 2 ^ 63) in *. clearbody h. rewrite Z.mod_small; lia.
Qed.

Lemma sumZ_cons z zs : sumZ (z :: zs) = z + sumZ zs.
Proof. reflexivity. Qed.

(** The local [dsize], which wraps as an [int], agrees with the true number
    of bytes modulo [2 ^ 64]. *)
Lemma dsize_of_dataBytes recs acc :
  uint64_wrap
    (fold_left (fun acc r => int64_wrap (acc + Z.of_nat (length (Data r))))
       recs acc)
  = uint64_wrap (acc + sumZ ((fun r => Z.of_nat (length (Data r))) <$> recs)).
Proof.
  revert acc. induction recs as [|r recs IH]; intros acc.
  - simpl. f_equal. lia.
  - cbn [fold_left]. rewrite IH, fmap_cons, sumZ_cons.
    rewrite <- uint64_wrap_add_l, uint64_wrap_int64_wrap.
    rewrite uint64_wrap_add_l. f_equal. lia.
Qed.

Lemma uint64_wrap_small a : 0 <= a < 2 ^ 64 -> uint64_wrap a = a.
Proof. intros Ha. unfold uint64_wrap. by apply Z.mod_small. Qed.

Lemma uint64_wrap_range a : 0 <= uint64_wrap a < 2 ^ 64.
Proof. unfold uint64_wrap. by apply Z.mod_pos_bound. Qed.

(** One update of an enabled tracker, with the true number of bytes. *)
Lemma Update_enabled res sz s :
  Disabled s = false ->
  Update res sz s =
  mkShardMetrics false (MillisBehindLatest res)
    (uint64_wrap (datasize s + dataBytes res))
    (uint64_wrap (entrysize s + sz))
    (uint64_wrap (requests s + 1)).
Proof.
  intros Hd. unfold Update. rewrite Hd. f_equal.
  - rewrite uint64_wrap_add_r. unfold dsize_of.
    rewrite <- uint64_wrap_add_r, dsize_of_dataBytes, uint64_wrap_add_r.
    reflexivity.
  - by rewrite uint64_wrap_add_r.
Qed.

(** What a tracker holds after any number of updates: if it is disabled,
    what it held before; otherwise the lag of the last update, and counters
    that are exact modulo [2 ^ 64] (requests: one per update; data: the
    bytes of all records; entries: the sizes passed in), whatever
    wrap-around the local sums went through. *)
Theorem applyUpdates_counts us s :
  counters64 s ->
  applyUpdates us s =
  if Disabled s then s
  else
    mkShardMetrics false
      (default (millisbehind s) (MillisBehindLatest <$> (fst <$> last us)))
      (uint64_wrap (datasize s + sumZ (dataBytes <$> (fst <$> us))))
      (uint64_wrap (entrysize s + sumZ (snd <$> us)))
      (uint64_wrap (requests s + Z.of_nat (length us))).
Proof.
  unfold applyUpdates. destruct (Disabled s) eqn:Hd.
  - intros _. induction us as [|u us IH]; [done|].
    cbn [fold_left]. unfold Update at 2. by rewrite Hd.
  - revert s Hd. induction us as [|u us IH]; intros s Hd (Hds & Hes & Hrq).
    + simpl. rewrite !Z.add_0_r, !uint64_wrap_small by done.
      destruct s; simpl in *; by subst.
    + cbn [fold_left]. rewrite (Update_enabled _ _ s Hd).
      rewrite IH; [|done|repeat split; apply uint64_wrap_range].
      cbn [Disabled millisbehind datasize entrysize requests].
      rewrite !fmap_cons, !sumZ_cons. f_equal.
      * destruct us as [|u' us]; [done|].
        rewrite last_cons_cons.
        destruct (last (u' :: us)) eqn:E; [done|].
        apply last_None in E. discriminate.
      * rewrite uint64_wrap_add_l. f_equal. lia.
      * rewrite uint64_wrap_add_l. f_equal. lia.
      * rewrite uint64_wrap_add_l. f_equal. cbn [length]. lia.
Qed.

Lemma applyUpdates_counts_witness :
  let res := mkGetRecordsOutput Sample.batch101_105 None 42 in
  ReadAndReset (applyUpdates [(res, 175); (res, 175)] (newTracker 10))
  = ((42, 10, 350, 2), mkShardMetrics false 42 0 0 0).
Proof.
  intros res.
  rewrite (applyUpdates_counts [(res, 175); (res, 175)] (newTracker 10)).
  - reflexivity.
  - vm_compute. repeat split; discriminate.
Defined.

Lemma int64_wrap_idem a : int64_wrap (int64_wrap a) = int64_wrap a.
Proof.
  unfold int64_wrap.
  replace ((a + 2 ^ 63) mod 2 ^ 64 - 2 ^ 63 + 2 ^ 63)
    with ((a + 2 ^ 63) mod 2 ^ 64) by lia.
  by rewrite Z.mod_mod.
Qed.

Lemma uint64_wrap_idem a : uint64_wrap (uint64_wrap a) = uint64_wrap a.
Proof. apply uint64_wrap_small, uint64_wrap_range. Qed.

(** The loop of the reporter: the trackers are drained one by one, and the
    sums of the report wrap around like the Go integers they are. *)
Lemma drain_sums report trackers :
  int64_wrap (AverageLag report) = AverageLag report ->
  uint64_wrap (CompressedDataSize report) = CompressedDataSize report ->
  uint64_wrap (EntryDataSize report) = EntryDataSize report ->
  uint64_wrap (KinesisRequests report) = KinesisRequests report ->
  drain report trackers =
  (mkMetricsReport (StreamName report) (ShardCount report)
     (int64_wrap (AverageLag report + sumZ (millisbehind <$> trackers)))
     (uint64_wrap (CompressedDataSize report + sumZ (datasize <$> trackers)))
     (uint64_wrap (EntryDataSize report + sumZ (entrysize <$> trackers)))
     (uint64_wrap (KinesisRequests report + sumZ (requests <$> trackers))),
   drained <$> trackers).
Proof.
  revert report. induction trackers as [|t ts IH]; intros report Hl Hd He Hr.
  - simpl. rewrite !Z.add_0_r, Hl, Hd, He, Hr. by destruct report.
  - cbn [drain ReadAndReset]. rewrite IH.
    + cbn [StreamName ShardCount AverageLag CompressedDataSize EntryDataSize
             KinesisRequests].
      rewrite !fmap_cons, !sumZ_cons.
      rewrite int64_wrap_add_l, !uint64_wrap_add_l, !Z.add_assoc.
      reflexivity.
    + apply int64_wrap_idem.
    + apply uint64_wrap_idem.
    + apply uint64_wrap_idem.
    + apply uint64_wrap_idem.
Qed.

Lemma drained_fields (trackers : list shardMetrics) :
  millisbehind <$> (drained <$> trackers) = millisbehind <$> trackers /\
  sumZ (datasize <$> (drained <$> trackers)) = 0 /\
  sumZ (entrysize <$> (drained <$> trackers)) = 0 /\
  sumZ (requests <$> (drained <$> trackers)) = 0 /\
  drained <$> (drained <$> trackers) = drained <$> trackers.
Proof.
  induction trackers as [|t ts (IHl & IHd & IHe & IHr & IHt)]; [done|].
  rewrite !fmap_cons, !sumZ_cons, IHl, IHd, IHe, IHr, IHt. done.
Qed.

(** With at least one tracker registered, a firing of the reporter's timer
    does not panic: it drains every tracker, and reports the sums of the
    three counters modulo [2 ^ 64] and the lag sum, wrapped to [int64],
    divided by the number of trackers with truncation towards zero. *)
Theorem reportTick_sums name n trackers :
  trackers <> [] ->
  reportTick name n trackers =
  Some
    (mkMetricsReport name (Z.of_nat n)
       (int64_wrap
          (Z.quot (int64_wrap (sumZ (millisbehind <$> trackers)))
             (Z.of_nat (length trackers))))
       (uint64_wrap (sumZ (datasize <$> trackers)))
       (uint64_wrap (sumZ (entrysize <$> trackers)))
       (uint64_wrap (sumZ (requests <$> trackers))),
     drained <$> trackers).
Proof.
  intros Hne. unfold reportTick. rewrite drain_sums by done. simpl.
  unfold int64_div. rewrite decide_False; [done|].
  destruct trackers; [done|]. simpl. lia.
Qed.

Lemma reportTick_sums_witness :
  reportTick "s" 2
    [mkShardMetrics false 30 10 20 1; mkShardMetrics false 45 1 2 3]
  = Some (mkMetricsReport "s" 2 37 11 22 4,
          [mkShardMetrics false 30 0 0 0; mkShardMetrics false 45 0 0 0]).
Proof.
  rewrite (reportTick_sums "s" 2
             [mkShardMetrics false 30 10 20 1; mkShardMetrics false 45 1 2 3]).
  - reflexivity.
  - discriminate.
Defined.

(** A second firing right after a first, with no update in between, reports
    the same average lag and zero for the three counters, and leaves every
    tracker as the first firing left it. *)
Theorem reportTick_twice name n trackers report trackers' :
  reportTick name n trackers = Some (report, trackers') ->
  reportTick name n trackers' =
  Some (mkMetricsReport name (Z.of_nat n) (AverageLag report) 0 0 0, trackers').
Proof.
  intros Hfirst.
  assert (Hne : trackers <> []).
  { intros ->. by rewrite (proj2 (reportTick_None name n [])) in Hfirst. }
  unfold reportTick in *. rewrite drain_sums in Hfirst by done.
  simpl in Hfirst. unfold int64_div in *.
  rewrite decide_False in Hfirst by (destruct trackers; [done|simpl; lia]).
  injection Hfirst as <- <-. simpl.
  destruct (drained_fields trackers) as (Hl & Hd & He & Hr & Ht).
  rewrite drain_sums by done. simpl. rewrite Hl, Hd, He, Hr, Ht.
  rewrite length_fmap.
  rewrite decide_False by (destruct trackers; [done|simpl; lia]).
  reflexivity.
Qed.

Lemma reportTick_twice_witness :
  reportTick "s" 2
    [mkShardMetrics false 30 0 0 0; mkShardMetrics false 45 0 0 0]
  = Some (mkMetricsReport "s" 2 37 0 0 0,
          [mkShardMetrics false 30 0 0 0; mkShardMetrics false 45 0 0 0]).
Proof.
  apply (reportTick_twice "s" 2
           [mkShardMetrics false 30 10 20 1; mkShardMetrics false 45 1 2 3]
           (mkMetricsReport "s" 2 37 11 22 4)).
  reflexivity.
Defined.

End MetricsLaws.

(** ** The consumer and the checkpoint store over whole runs *)

Section StoreLaws.
Import Shard Observe.
Context {P TG : Type} `{!ProcessorSet P, !TimeGrinder TG, !EntryLib}.
Implicit Types (c : Consumer P TG) (e : Env) (evs : list Event)
  (ticks : list Tick).

(** The store after a step: untouched, initialised for the stream by the
    read at the top of [reconnectLoop], or written once for the consumer's
    own shard with a token that is not empty and is either [lastSeqNum] or
    the sequence number of a record of the batch. *)
Lemma step_stateMan e c :
  stateMan (fst (step e c)) = stateMan c \/
  stateMan (fst (step e c))
  = fst (Stateman.GetSequenceNum (Stream_Name (stream c)) (ShardId (shard c))
           (stateMan c)) \/
  exists seq,
    seq <> EmptyString /\
    (lastSeqNumOf c = Some seq \/ seq ∈ deliveredTokens [Source e]) /\
    stateMan (fst (step e c))
    = Stateman.UpdateSequenceNum (Stream_Name (stream c)) (ShardId (shard c))
        seq (stateMan c).
Proof.
  destruct (getsBatch_dec e c) as [[out Hb]|Hno].
  - destruct (step_batch_outcome e c out Hb)
      as (gri & lastSeqNum & evs & sz & _ & Hlast & _ & _ & _ & _ & _ & _ & _
          & Hsm).
    simpl in Hsm. rewrite Hsm.
    destruct (decide (default lastSeqNum (SequenceNumber <$> last (Records out))
                      = EmptyString)) as [|Hne]; [by left|].
    right; right. eexists. split; [exact Hne|]. split; [|reflexivity].
    destruct (last (Records out)) as [r|] eqn:Hr; simpl; [right|by left].
    unfold deliveredTokens. simpl. destruct Hb as [_ ->]. rewrite app_nil_r.
    apply list_elem_of_fmap. exists r. split; [done|].
    by apply last_Some_elem_of.
  - unfold getsBatch, fetches in Hno. unfold step.
    destruct (phase c) as [|iter last|gri iter last| |] eqn:Hph.
    + right; left. unfold acquire, acquireRequest.
      destruct (Stateman.GetSequenceNum _ _ (stateMan c)) as [sm seqnum].
      destruct (iterResult e) as [output [err|]]; [done|].
      by destruct (ShardIterator output).
    + left. destruct (running e) eqn:Hrun.
      * destruct (recordsResult e) as [res err] eqn:Hres.
        destruct (fetch_no_batch (mkGri (Some 5000) (Some iter)) iter last
                    res err c) as (ph & evs & -> & _).
        { destruct res as [out|]; [|by left]. right. intros ->.
          by apply (Hno out). }
        done.
      * unfold shutdown. by destruct (ProcClose (procset c)).
    + left. destruct (recordsResult e) as [res err] eqn:Hres.
      destruct (fetch_no_batch gri iter last res err c) as (ph & evs & -> & _).
      { destruct res as [out|]; [|by left]. right. intros ->.
        by apply (Hno out). }
      done.
    + by left.
    + by left.
Qed.

Lemma step_stateFile e c :
  Stateman.stateFile (stateMan (fst (step e c)))
  = Stateman.stateFile (stateMan c).
Proof.
  destruct (step_stateMan e c) as [->|[->|(seq & _ & _ & ->)]]; done.
Qed.

(** The state file holds what the store held at the last flush: whatever
    the consumer does after the last firing of the flush timer, the token a
    restart would find for its shard is the one stored at that firing. *)
Theorem state_file_as_of_last_flush ticks1 ticks2 c :
  Forall (fun t => t <> FlushTimer) ticks2 ->
  persistedToken (fst (run (ticks1 ++ FlushTimer :: ticks2) c))
  = storedToken (fst (run ticks1 c)).
Proof.
  intros Hnone. rewrite run_app. simpl fst.
  set (c1 := fst (run ticks1 c)).
  change (run (FlushTimer :: ticks2) c1)
    with (let '(c2, ev2) :=
            run ticks2 (set_stateMan (Stateman.Flush (stateMan c1)) c1) in
          (c2, [] ++ ev2)).
  set (c2 := set_stateMan (Stateman.Flush (stateMan c1)) c1).
  assert (Hfile : forall c',
             Stateman.stateFile (stateMan (fst (run ticks2 c')))
             = Stateman.stateFile (stateMan c')).
  { induction Hnone as [|t ts Ht _ IH]; intros c'; [done|].
    simpl. destruct t as [e|]; [|done]. simpl.
    pose proof (step_stateFile e c') as Hstep.
    destruct (step e c') as [c3 ev3]. specialize (IH c3).
    destruct (run ts c3) as [c4 ev4]. simpl in *. congruence. }
  pose proof (run_sameIdentity ticks2 c2) as (Hn & Hs & _).
  specialize (Hfile c2). destruct (run ticks2 c2) as [c3 ev3]. simpl in *.
  unfold persistedToken, storedToken, Stateman.persisted. rewrite Hn, Hs, Hfile.
  reflexivity.
Qed.

(** A consumer writes only under its own stream and shard: over any run, the
    token the store holds for any other stream or shard is what it was. *)
Theorem run_keeps_other_tokens ticks c stream' shard' :
  ~ (Stream_Name (stream c) = stream' /\ ShardId (shard c) = shard') ->
  Stateman.current stream' shard' (stateMan (fst (run ticks c)))
  = Stateman.current stream' shard' (stateMan c).
Proof.
  revert c. induction ticks as [|t ticks IH]; intros c Hother; [done|].
  simpl.
  assert (H1 : Stateman.current stream' shard' (stateMan (fst (tick t c)))
               = Stateman.current stream' shard' (stateMan c)).
  { destruct t as [e|]; [|done]. simpl.
    destruct (step_stateMan e c) as [->|[->|(seq & _ & _ & ->)]]; [done| |].
    - apply GetSequenceNum_current.
    - by apply UpdateSequenceNum_current_other. }
  pose proof (tick_sameIdentity t c) as (Hn & Hs & _).
  destruct (tick t c) as [c1 ev1]. simpl in *.
  specialize (IH c1). destruct (run ticks c1) as [c2 ev2]. simpl in *.
  rewrite IH; [done|]. by rewrite Hn, Hs.
Qed.

(** The stored token never comes from anywhere but the service: after any
    run of a consumer whose [lastSeqNum] agrees with the store, the token
    stored for its shard is the one stored before the run, or the sequence
    number, not empty, of a record delivered during the run. *)
Theorem stored_token_provenance ticks c :
  tokenInSync c ->
  storedToken (fst (run ticks c)) = storedToken c \/
  (storedToken (fst (run ticks c)) <> EmptyString /\
   storedToken (fst (run ticks c)) ∈ deliveredTokens ticks).
Proof.
  revert c. induction ticks as [|t ticks IH]; intros c Hsync; [by left|].
  simpl.
  assert (H1 : storedToken (fst (tick t c)) = storedToken c \/
               (storedToken (fst (tick t c)) <> EmptyString /\
                storedToken (fst (tick t c)) ∈ deliveredTokens [t])).
  { destruct t as [e|]; [|by left]. simpl.
    pose proof (step_sameIdentity e c) as Hid.
    rewrite (storedToken_sameIdentity c _ Hid).
    destruct (step_stateMan e c) as [->|[->|(seq & Hne & Hfrom & ->)]].
    - by left.
    - left. apply GetSequenceNum_current.
    - rewrite UpdateSequenceNum_current. destruct Hfrom as [Hlast|Hin].
      + left. unfold tokenInSync in Hsync. rewrite Hlast in Hsync.
        by destruct Hsync.
      + by right. }
  pose proof (tick_tokenInSync t c Hsync) as Hsync1.
  destruct (tick t c) as [c1 ev1]. simpl in *.
  specialize (IH c1 Hsync1). destruct (run ticks c1) as [c2 ev2]. simpl in *.
  assert (Hsplit : deliveredTokens (t :: ticks)
                   = deliveredTokens [t] ++ deliveredTokens ticks).
  { unfold deliveredTokens. simpl. by rewrite app_nil_r, fmap_app. }
  rewrite Hsplit.
  destruct IH as [->|[Hne Hin]].
  - destruct H1 as [->|[Hne Hin]]; [by left|right].
    split; [done|]. apply elem_of_app. by left.
  - right. split; [done|]. apply elem_of_app. by right.
Qed.

End StoreLaws.

(** ** The loops of the consumer over whole runs *)

Section LoopLaws.
Import Shard Observe.
Context {P TG : Type} `{!ProcessorSet P, !TimeGrinder TG, !EntryLib}.
Implicit Types (c : Consumer P TG) (e : Env) (evs : list Event)
  (ticks : list Tick) (es : list Env).

Lemma getRecordsOf_app evs1 evs2 :
  getRecordsOf (evs1 ++ evs2) = getRecordsOf evs1 ++ getRecordsOf evs2.
Proof.
  induction evs1 as [|ev evs1 IH]; [done|].
  destruct ev; simpl; by rewrite ?IH.
Qed.

Lemma getShardIteratorsOf_app evs1 evs2 :
  getShardIteratorsOf (evs1 ++ evs2)
  = getShardIteratorsOf evs1 ++ getShardIteratorsOf evs2.
Proof.
  induction evs1 as [|ev evs1 IH]; [done|].
  destruct ev; simpl; by rewrite ?IH.
Qed.

Lemma closes_app evs1 evs2 :
  closes (evs1 ++ evs2) = (closes evs1 + closes evs2)%nat.
Proof.
  induction evs1 as [|ev evs1 IH]; [done|].
  destruct ev; simpl; by rewrite ?IH.
Qed.

(** A goroutine that has returned, or panicked, does nothing more. *)
Lemma run_terminal ticks c :
  phase c = Closed \/ phase c = Panicked ->
  snd (run ticks c) = [] /\ phase (fst (run ticks c)) = phase c /\
  procset (fst (run ticks c)) = procset c.
Proof.
  revert c. induction ticks as [|t ticks IH]; intros c Hph; [done|].
  simpl. destruct t as [e|]; simpl.
  - unfold step. destruct Hph as [Hph|Hph]; rewrite Hph;
      (specialize (IH c (ltac:(rewrite Hph; eauto)));
       destruct (run ticks c) as [c2 ev2]; simpl in *;
       destruct IH as (-> & ? & ?); by rewrite <- Hph).
  - specialize (IH (set_stateMan (Stateman.Flush (stateMan c)) c) Hph).
    destruct (run ticks _) as [c2 ev2]. simpl in *.
    by destruct IH as (-> & ? & ?).
Qed.

(** Shutdown is final: a consumer that reads [running] as false at the
    head of its loop closes its processor set, once, and returns; whatever
    happens afterwards it calls neither the service nor the processor set
    again. *)
Theorem shutdown_is_final ticks e c iter lastSeqNum :
  phase c = Streaming iter lastSeqNum ->
  running e = false ->
  snd (run (Source e :: ticks) c) = snd (shutdown c) /\
  closes (snd (run (Source e :: ticks) c)) = 1%nat /\
  getRecordsOf (snd (run (Source e :: ticks) c)) = [] /\
  processed (snd (run (Source e :: ticks) c)) = [] /\
  phase (fst (run (Source e :: ticks) c)) = Closed /\
  procset (fst (run (Source e :: ticks) c)) = fst (ProcClose (procset c)).
Proof.
  intros Hph Hrun. simpl. unfold step. rewrite Hph, Hrun.
  pose proof (run_terminal ticks (fst (shutdown c))) as Hterm.
  unfold shutdown in *. destruct (ProcClose (procset c)) as [ps err].
  simpl in Hterm. destruct Hterm as (Hev & Hphase & Hps); [by left|].
  destruct (run ticks _) as [c2 ev2]. simpl in *. subst ev2.
  rewrite app_nil_r. by destruct err.
Qed.

(** One failure in place: the request is kept, the iterator follows the
    response if it carries one, and [lastSeqNum] and the store are as they
    were. *)
Lemma fetch_failsInPlace gri iter lastSeqNum e c :
  failsInPlace e = true ->
  exists line,
    fetch gri iter lastSeqNum (recordsResult e) c =
    (set_phase (Retrying gri (nextIter (fst (recordsResult e)) iter) lastSeqNum) c,
     EvGetRecords gri :: EvLog line :: (EvSleep <$> backoff e)).
Proof.
  unfold failsInPlace, backoff, fetch.
  destruct (recordsResult e) as [res [[code message|text]|]]; [| |done].
  - intros Hcode. apply negb_true_iff, bool_decide_eq_false in Hcode.
    rewrite (decide_False (P := code = ErrCodeExpiredIteratorException))
      by done.
    case_decide; eauto.
  - eauto.
Qed.

(** A consumer that is retrying a failed [GetRecords] keeps retrying while
    the service fails with anything but an expired iterator, whatever the
    value of [running]: it repeats the same request, sleeps 500 ms after an
    error of the SDK and not at all after any other error, never closes its
    processor set, and leaves the checkpoint store alone. *)
Theorem retry_in_place es c gri iter lastSeqNum :
  phase c = Retrying gri iter lastSeqNum ->
  Forall (fun e => failsInPlace e = true) es ->
  (exists iter',
     phase (fst (run (Source <$> es) c)) = Retrying gri iter' lastSeqNum) /\
  getRecordsOf (snd (run (Source <$> es) c)) = replicate (length es) gri /\
  sleeps (snd (run (Source <$> es) c)) = flat_map backoff es /\
  closes (snd (run (Source <$> es) c)) = 0%nat /\
  processed (snd (run (Source <$> es) c)) = [] /\
  stateMan (fst (run (Source <$> es) c)) = stateMan c.
Proof.
  intros Hph Hall. revert c iter Hph.
  induction Hall as [|e es He _ IH]; intros c iter Hph.
  - simpl. repeat split; eauto.
  - rewrite fmap_cons. simpl. unfold step. rewrite Hph.
    destruct (fetch_failsInPlace gri iter lastSeqNum e c He) as (line & ->).
    specialize (IH (set_phase (Retrying gri (nextIter (fst (recordsResult e)) iter)
                                 lastSeqNum) c) _ eq_refl).
    destruct (run (Source <$> es) _) as [c2 ev2]. simpl in *.
    destruct IH as (Hphase & Hreq & Hsl & Hcl & Hpr & Hsm).
    rewrite getRecordsOf_app, sleeps_app, closes_app, processed_app.
    rewrite Hreq, Hsl, Hcl, Hpr, Hsm.
    assert (Hb : getRecordsOf (EvSleep <$> backoff e) = [] /\
                 sleeps (EvSleep <$> backoff e) = backoff e /\
                 closes (EvSleep <$> backoff e) = 0%nat /\
                 processed (EvSleep <$> backoff e) = []).
    { unfold backoff. by destruct (recordsResult e) as [? [[]|]]. }
    destruct Hb as (-> & -> & -> & ->). by repeat split.
Qed.

Lemma acquireRequest_after_read c :
  snd (acquireRequest (set_stateMan (fst (acquireRequest c)) c))
  = snd (acquireRequest c).
Proof.
  rewrite !acquireRequest_token.
  assert (Htok : storedToken (set_stateMan (fst (acquireRequest c)) c)
                 = storedToken c).
  { unfold acquireRequest.
    pose proof (storedToken_GetSequenceNum c) as Hs.
    by destruct (Stateman.GetSequenceNum _ _ (stateMan c)). }
  by rewrite Htok.
Qed.

(** A consumer that is refused an iterator, by an error or by a nil
    iterator, keeps asking: it repeats the same [GetShardIterator] request,
    sleeps 5 s after each refusal, calls [GetRecords] not once, and the
    token stored for its shard stays what it was. *)
Theorem acquire_retries es c :
  phase c = Acquiring ->
  Forall (fun e => refusesIterator e = true) es ->
  phase (fst (run (Source <$> es) c)) = Acquiring /\
  getShardIteratorsOf (snd (run (Source <$> es) c))
  = replicate (length es) (snd (acquireRequest c)) /\
  sleeps (snd (run (Source <$> es) c)) = replicate (length es) 5000 /\
  getRecordsOf (snd (run (Source <$> es) c)) = [] /\
  storedToken (fst (run (Source <$> es) c)) = storedToken c.
Proof.
  intros Hph Hall. revert c Hph.
  induction Hall as [|e es He _ IH]; intros c Hph; [done|].
  rewrite fmap_cons. simpl. unfold step. rewrite Hph.
  assert (Hacq : exists line,
             acquire (iterResult e) c =
             (set_stateMan (fst (acquireRequest c)) c,
              [EvGetSequenceNum (Stream_Name (stream c)) (ShardId (shard c));
               EvGetShardIterator (snd (acquireRequest c));
               EvLog line; EvSleep 5000])).
  { unfold acquire, refusesIterator in *.
    destruct (acquireRequest c) as [sm gsii].
    destruct (iterResult e) as [output [err|]]; [by eexists|].
    apply bool_decide_eq_true in He. rewrite He. by eexists. }
  destruct Hacq as (line & ->).
  pose proof (acquireRequest_after_read c) as Hreq.
  assert (Htok : storedToken (set_stateMan (fst (acquireRequest c)) c)
                 = storedToken c).
  { unfold acquireRequest.
    pose proof (storedToken_GetSequenceNum c) as Hs.
    by destruct (Stateman.GetSequenceNum _ _ (stateMan c)). }
  specialize (IH (set_stateMan (fst (acquireRequest c)) c) Hph).
  destruct (run (Source <$> es) _) as [c2 ev2]. simpl in *.
  destruct IH as (Hphase & Hgsii & Hsl & Hgr & Hst).
  rewrite Hgsii, Hsl, Hgr, Hst, Hreq. by repeat split.
Qed.

End LoopLaws.

(** ** Batches over whole runs *)

Section BatchLaws.
Import Shard Observe.
Context {P TG : Type} `{!ProcessorSet P, !TimeGrinder TG, !EntryLib}.
Implicit Types (c : Consumer P TG) (e : Env) (evs : list Event)
  (ticks : list Tick).

(** The iterator moves with the service: after a batch the next request
    carries the [NextShardIterator] of the response, and the iterator just
    used when the response carries none. *)
Theorem next_iterator_follows_response e c iter lastSeqNum out :
  phase c = Streaming iter lastSeqNum ->
  running e = true ->
  recordsResult e = (Some out, None) ->
  getRecordsOf (snd (step e c)) <> [] /\
  head (getRecordsOf (snd (step e c))) = Some (mkGri (Some 5000) (Some iter)) /\
  nextRequest (fst (step e c))
  = Some (mkGri (Some 5000) (Some (default iter (NextShardIterator out)))).
Proof.
  intros Hph Hrun Hres. unfold step. rewrite Hph, Hrun, Hres, fetch_success.
  pose proof (handleBatch_spec out (nextIter (Some out) iter) lastSeqNum c)
    as (_ & Hphase & _).
  cbn [fst snd getRecordsOf head].
  split; [done|]. split; [done|].
  unfold nextRequest. rewrite Hphase. reflexivity.
Qed.

(** In stream mode a rejected entry does not stop the batch: the step of a
    batch hands every record of the batch to the processor set, in order,
    whatever [ProcessContext] returns for any of them. *)
Theorem batch_hands_over_every_record e c out :
  getsBatch e c out ->
  EntData <$> processed (snd (step e c)) = Data <$> Records out /\
  length (processed (snd (step e c))) = length (Records out).
Proof.
  intros Hb.
  destruct (step_batch_outcome e c out Hb)
    as (gri & lastSeqNum & evs & sz & _ & _ & Hev & _ & _ & Hp & _).
  simpl in Hev.
  assert (Hdata : EntData <$> processed (snd (step e c)) = Data <$> Records out).
  { rewrite Hev. simpl. rewrite !processed_app, <- Hp. simpl.
    assert (Hidle : processed
                      (if decide (length (Records out) = 0%nat)
                       then [EvSleep 100] else []) = [])
      by (by destruct (decide (length (Records out) = 0%nat))).
    assert (Hw : forall l, processed (writeEvents c l) = []).
    { intros l. unfold writeEvents. by destruct (decide (l = EmptyString)). }
    by rewrite Hidle, Hw, app_nil_r. }
  split; [exact Hdata|].
  apply (f_equal length) in Hdata. by rewrite !length_fmap in Hdata.
Qed.

(** A consumer whose stream has [Parse_Time] off never calls the time
    grinder: over any run the flag stays off, and every entry handed over is
    the entry of a delivered record with the time stamp of its metadata. *)
Theorem parsing_off_never_extracts ticks c :
  Parse_Time (stream c) = false ->
  Parse_Time (stream (fst (run ticks c))) = false /\
  Forall (fallenBack (tagid c) (src c) (flat_map delivered ticks))
    (snd (run ticks c)).
Proof.
  intros Hoff. destruct (run_fallsBack ticks c) as (_ & _ & Hstay).
  exact (Hstay Hoff).
Qed.

(** Restart: when the store has been flushed after a run, a consumer
    started afresh for the same shard on what the state file holds asks for
    an iterator after the token the stopped consumer had stored, and for the
    configured iterator type if it had stored none. *)
Theorem restart_resumes_after_stored_token ticks c (g : TG) (ps : P) :
  let c1 := fst (run (ticks ++ [FlushTimer]) c) in
  let c2 :=
    newConsumer (stream c1) (shard c1) (shardid c1) (tagid c1) (src c1) g ps
      (Stateman.NewStateman (Stateman.stateFile (stateMan c1))) in
  storedToken c1 = storedToken (fst (run ticks c)) /\
  snd (acquireRequest c2) =
  if decide (storedToken c1 = EmptyString)
  then mkGsii (Some (ShardId (shard c))) (Some (Stream_Name (stream c)))
         (Some (Iterator_Type (stream c1))) None
  else mkGsii (Some (ShardId (shard c))) (Some (Stream_Name (stream c)))
         (Some "AFTER_SEQUENCE_NUMBER") (Some (storedToken c1)).
Proof.
  intros c1 c2.
  assert (Hc1 : c1 = set_stateMan
                       (Stateman.Flush (stateMan (fst (run ticks c))))
                       (fst (run ticks c))).
  { subst c1. rewrite run_app. done. }
  pose proof (run_sameIdentity ticks c) as (Hn & Hs & _).
  assert (Htok : storedToken c2 = storedToken c1).
  { subst c2. rewrite Hc1. reflexivity. }
  split; [by rewrite Hc1|].
  rewrite acquireRequest_token, Htok.
  assert (Hn1 : Stream_Name (stream c1) = Stream_Name (stream c))
    by (by rewrite Hc1).
  assert (Hs1 : shard c1 = shard c) by (by rewrite Hc1).
  subst c2. simpl. by rewrite Hn1, Hs1.
Qed.

Lemma update_event_in_writes evs s sh seq :
  EvUpdateSequenceNum s sh seq ∈ evs -> seq ∈ checkpointWrites evs.
Proof.
  induction evs as [|ev evs IH]; [by intros ?%elem_of_nil|].
  intros [Heq|Hin]%elem_of_cons.
  - subst ev. simpl. apply list_elem_of_here.
  - specialize (IH Hin). destruct ev; simpl; try done.
    by apply list_elem_of_further.
Qed.

Lemma quiet_no_update evs s sh seq :
  Forall quiet evs -> EvUpdateSequenceNum s sh seq ∉ evs.
Proof.
  intros Hq Hin. rewrite Forall_forall in Hq. exact (Hq _ Hin).
Qed.

(** Every checkpoint write of a run is made under the consumer's own stream
    and shard, and none writes the empty token. *)
Theorem checkpoint_writes_are_own ticks c s sh seq :
  EvUpdateSequenceNum s sh seq ∈ snd (run ticks c) ->
  s = Stream_Name (stream c) /\ sh = ShardId (shard c) /\ seq <> EmptyString.
Proof.
  revert c. induction ticks as [|t ticks IH]; intros c; simpl.
  - by intros ?%elem_of_nil.
  - assert (H1 : EvUpdateSequenceNum s sh seq ∈ snd (tick t c) ->
                 s = Stream_Name (stream c) /\ sh = ShardId (shard c) /\
                 seq <> EmptyString).
    { destruct t as [e|]; [|by intros ?%elem_of_nil]. simpl.
      destruct (getsBatch_dec e c) as [[out Hb]|Hno].
      - destruct (step_batch_outcome e c out Hb)
          as (gri & l & evs & sz & _ & _ & Hev & Hw & _).
        simpl in Hev. rewrite Hev.
        intros [Heq|Hin]%elem_of_cons; [done|].
        apply elem_of_app in Hin as [Hin|Hin].
        { by destruct (decide (length (Records out) = 0%nat));
            [apply list_elem_of_singleton in Hin|apply elem_of_nil in Hin]. }
        apply elem_of_app in Hin as [Hin|Hin].
        { apply update_event_in_writes in Hin. rewrite Hw in Hin.
          by apply elem_of_nil in Hin. }
        apply elem_of_cons in Hin as [Heq|Hin]; [done|].
        unfold writeEvents in Hin. case_decide as Hl.
        + by apply elem_of_nil in Hin.
        + apply list_elem_of_singleton in Hin. by injection Hin as -> -> ->.
      - destruct (step_no_batch e c Hno) as (_ & _ & Hq & _).
        intros Hin. by apply (quiet_no_update _ s sh seq) in Hq. }
    pose proof (tick_sameIdentity t c) as (Hn & Hs & _).
    destruct (tick t c) as [c1 ev1]. simpl in *.
    specialize (IH c1). destruct (run ticks c1) as [c2 ev2]. simpl in *.
    intros [Hin|Hin]%elem_of_app; [by apply H1|].
    rewrite <- Hn, <- Hs. by apply IH.
Qed.

End BatchLaws.

(** ** The queue consumer over whole batches and runs *)

Section QueueLaws.
Import Queue QueueObserve.
Context {P K : Type}
  `{!ProcessorSet P, !Clock K, !EntryLib, !Strconv, !SqsRequest}.
Implicit Types (st : State P K) (hcfg : handlerConfig) (v : Message)
  (msgs : list Message) (arrivals : list Arrival).

(** The entry of a message: the configured tag and source, the body as
    payload; events before the hand-over are log lines about the time stamp,
    none when time stamps are ignored; and the clock is read only when they
    are. *)
Lemma buildEntry_shape hcfg v (k : K) :
  exists k' ent evs,
    buildEntry hcfg v k = (k', ent, evs) /\
    Tag ent = tag hcfg /\ SRC ent = src hcfg /\
    EntData ent = String.list_byte_of_string (Body v) /\
    processed evs = [] /\
    Forall (fun ev => timestampLine ev = true) evs /\
    (ignoreTimestamps hcfg = true -> evs = []) /\
    (ignoreTimestamps hcfg = false -> k' = k).
Proof.
  unfold buildEntry, messageTS. destruct (ignoreTimestamps hcfg); simpl.
  - destruct (Now k) as [k' now]. eexists _, _, _. by repeat split.
  - destruct (Attributes v !! "SentTimestamp") as [t|].
    + destruct (ParseInt t); eexists _, _, _;
        repeat split; try done; by repeat constructor.
    + eexists _, _, _. repeat split; try done; by repeat constructor.
Qed.

(** One message in the middle of a batch. *)
Lemma handleMessages_middle hcfg pre v post st :
  handleMessages hcfg (pre ++ v :: post) st =
  match handleMessages hcfg pre st with
  | (st1, ev1, Returned) => (st1, ev1, Returned)
  | (st1, ev1, Looping) =>
      let '(k, ent, evs) := buildEntry hcfg v (clock st1) in
      match ProcessContext (proc st1) ent with
      | (ps, Some e) =>
          (mkState ps k,
           ev1 ++ evs ++ [EvProcess ent; EvLog (LgSending e)], Returned)
      | (ps, None) =>
          let '(st3, ev3, status) := handleMessages hcfg post (mkState ps k) in
          (st3, ev1 ++ evs ++ EvProcess ent :: ev3, status)
      end
  end.
Proof.
  rewrite handleMessages_app.
  destruct (handleMessages hcfg pre st) as [[st1 ev1] [|]]; [|done].
  simpl. unfold handleMessage.
  destruct (buildEntry hcfg v (clock st1)) as [[k ent] evs].
  destruct (ProcessContext (proc st1) ent) as [ps [e|]]; [done|].
  destruct (handleMessages hcfg post (mkState ps k)) as [[st3 ev3] status].
  by rewrite <- app_assoc.
Qed.

(** With [ignoreTimestamps] false, a message whose [SentTimestamp] does not
    parse as a decimal [int64] is logged as such and its entry, with the
    zero time stamp, is handed to the processor set like any other; the
    messages around it are handled as they would be without it. *)
Theorem unparsable_timestamp_entry_still_sent hcfg pre v post st t :
  ignoreTimestamps hcfg = false ->
  Attributes v !! "SentTimestamp" = Some t ->
  ParseInt t = None ->
  let ent :=
    mkEntry zeroTimestamp (src hcfg) (tag hcfg)
      (String.list_byte_of_string (Body v)) in
  handleMessages hcfg (pre ++ v :: post) st =
  match handleMessages hcfg pre st with
  | (st1, ev1, Returned) => (st1, ev1, Returned)
  | (st1, ev1, Looping) =>
      match ProcessContext (proc st1) ent with
      | (ps, Some e) =>
          (mkState ps (clock st1),
           ev1 ++ [EvLog (LgParseInt t); EvProcess ent; EvLog (LgSending e)],
           Returned)
      | (ps, None) =>
          let '(st3, ev3, status) :=
            handleMessages hcfg post (mkState ps (clock st1)) in
          (st3, ev1 ++ [EvLog (LgParseInt t); EvProcess ent] ++ ev3, status)
      end
  end.
Proof.
  intros Hign Hattr Hparse ent. rewrite handleMessages_middle.
  destruct (handleMessages hcfg pre st) as [[st1 ev1] [|]]; [|done].
  unfold buildEntry, messageTS. rewrite Hign, Hattr, Hparse. simpl.
  fold ent. destruct (ProcessContext (proc st1) ent) as [ps [e|]]; [done|].
  by destruct (handleMessages hcfg post (mkState ps (clock st1)))
    as [[st3 ev3] status].
Qed.

(** With [ignoreTimestamps] false, a message whose [SentTimestamp] parses
    gets the time stamp [UnixTime] makes of the milliseconds divided by 1000
    with truncation towards zero, and zero nanoseconds; nothing is logged
    about it and the clock is not read. *)
Theorem parsed_timestamp_is_truncated_to_seconds hcfg pre v post st t ut :
  ignoreTimestamps hcfg = false ->
  Attributes v !! "SentTimestamp" = Some t ->
  ParseInt t = Some ut ->
  let ent :=
    mkEntry (UnixTime (Z.quot ut 1000) 0) (src hcfg) (tag hcfg)
      (String.list_byte_of_string (Body v)) in
  handleMessages hcfg (pre ++ v :: post) st =
  match handleMessages hcfg pre st with
  | (st1, ev1, Returned) => (st1, ev1, Returned)
  | (st1, ev1, Looping) =>
      match ProcessContext (proc st1) ent with
      | (ps, Some e) =>
          (mkState ps (clock st1),
           ev1 ++ [EvProcess ent; EvLog (LgSending e)], Returned)
      | (ps, None) =>
          let '(st3, ev3, status) :=
            handleMessages hcfg post (mkState ps (clock st1)) in
          (st3, ev1 ++ [EvProcess ent] ++ ev3, status)
      end
  end.
Proof.
  intros Hign Hattr Hparse ent. rewrite handleMessages_middle.
  destruct (handleMessages hcfg pre st) as [[st1 ev1] [|]]; [|done].
  unfold buildEntry, messageTS. rewrite Hign, Hattr, Hparse. simpl.
  fold ent. destruct (ProcessContext (proc st1) ent) as [ps [e|]]; [done|].
  by destruct (handleMessages hcfg post (mkState ps (clock st1)))
    as [[st3 ev3] status].
Qed.

End QueueLaws.

Section QueueRunLaws.
Import Queue QueueObserve.
Context {P K : Type}
  `{!ProcessorSet P, !Clock K, !EntryLib, !Strconv, !SqsRequest}.
Implicit Types (st : State P K) (hcfg : handlerConfig) (v : Message)
  (msgs : list Message) (arrivals : list Arrival).

(** The events of one message: log lines about its time stamp, the
    hand-over of its entry, and the log line of a rejection. *)
Lemma handleMessage_shape hcfg v st :
  exists k ent evs ps err,
    handleMessage hcfg v st =
    (mkState ps k,
     evs ++ EvProcess ent ::
       match err with
       | Some e => [EvLog (LgSending e)]
       | None => []
       end,
     err) /\
    Tag ent = tag hcfg /\ SRC ent = src hcfg /\
    EntData ent = String.list_byte_of_string (Body v) /\
    processed evs = [] /\
    Forall (fun ev => timestampLine ev = true) evs /\
    (ignoreTimestamps hcfg = true -> evs = []) /\
    (ignoreTimestamps hcfg = false -> k = clock st).
Proof.
  destruct (buildEntry_shape hcfg v (clock st))
    as (k & ent & evs & Hb & Htag & Hsrc & Hdata & Hp & Hl & Hi & Hk).
  unfold handleMessage. rewrite Hb.
  destruct (ProcessContext (proc st) ent) as [ps err].
  by exists k, ent, evs, ps, err.
Qed.

(** The queue consumer neither skips, nor reorders, nor repeats: the
    payloads handed to the processor set are the bodies of the first
    messages of the batch, in order; of all of them if the function is still
    in its loop after the batch, and otherwise the last event is the log
    line of the rejection that ended it. *)
Theorem batch_is_handled_in_order hcfg msgs st :
  let r := handleMessages hcfg msgs st in
  EntData <$> processed (snd (fst r)) `prefix_of` bodies msgs /\
  (snd r = Looping -> EntData <$> processed (snd (fst r)) = bodies msgs) /\
  (snd r = Returned -> exists e, last (snd (fst r)) = Some (EvLog (LgSending e))).
Proof.
  revert st. induction msgs as [|v msgs IH]; intros st.
  - simpl. repeat split; [by apply prefix_nil|done].
  - cbn [handleMessages].
    destruct (handleMessage_shape hcfg v st)
      as (k & ent & evs & ps & err & -> & _ & _ & Hdata & Hp & _).
    destruct err as [e|].
    + simpl. rewrite queue_processed_app, Hp. simpl. rewrite Hdata.
      split; [apply prefix_cons, prefix_nil|]. split; [done|].
      intros _. exists e. by rewrite last_app.
    + specialize (IH (mkState ps k)).
      destruct (handleMessages hcfg msgs (mkState ps k)) as [[st2 ev2] status].
      simpl in *. destruct IH as (Hpre & Hloop & Hret).
      rewrite !queue_processed_app, Hp. simpl. rewrite Hdata.
      split; [by apply prefix_cons|].
      split; [intros Hs; f_equal; by apply Hloop|].
      intros Hs. destruct (Hret Hs) as [e He]. exists e.
      rewrite last_app. by rewrite He.
Qed.

Lemma handleMessages_wellStamped hcfg msgs st :
  wellStamped hcfg (snd (fst (handleMessages hcfg msgs st))) /\
  (ignoreTimestamps hcfg = false ->
   clock (fst (fst (handleMessages hcfg msgs st))) = clock st).
Proof.
  unfold wellStamped. revert st. induction msgs as [|v msgs IH]; intros st.
  - simpl. repeat split; by constructor.
  - cbn [handleMessages].
    destruct (handleMessage_shape hcfg v st)
      as (k & ent & evs & ps & err & -> & Htag & Hsrc & _ & Hp & _ & Hi & Hk).
    destruct err as [e|].
    + simpl. rewrite queue_processed_app, Hp. simpl.
      repeat split; [by repeat constructor| |done].
      intros Hign. rewrite (Hi Hign). by repeat constructor.
    + specialize (IH (mkState ps k)).
      destruct (handleMessages hcfg msgs (mkState ps k)) as [[st2 ev2] status].
      simpl in *. destruct IH as ((Hents & Hlines) & Hclock).
      rewrite !queue_processed_app, Hp. simpl.
      repeat split.
      * by constructor.
      * intros Hign. rewrite (Hi Hign). simpl. constructor; [done|].
        by apply Hlines.
      * intros Hign. rewrite (Hclock Hign). by apply Hk.
Qed.

(** Over any run of [queueRunner], every entry handed to the processor set
    carries the tag and the source address of the queue's configuration;
    when time stamps are ignored no line is ever logged about a time stamp,
    and when they are not the clock is never read. *)
Theorem queue_entries_are_well_stamped hcfg arrivals st :
  wellStamped hcfg (snd (fst (queueRunner hcfg arrivals st))) /\
  (ignoreTimestamps hcfg = false ->
   clock (fst (fst (queueRunner hcfg arrivals st))) = clock st).
Proof.
  pose proof (handleMessages_wellStamped hcfg) as Hbatch.
  unfold wellStamped in *.
  revert st. induction arrivals as [|a arrivals IH]; intros st.
  - simpl. repeat split; by constructor.
  - cbn [queueRunner].
    assert (Hround :
              (Forall (fun ent => Tag ent = tag hcfg /\ SRC ent = src hcfg)
                 (processed (snd (fst (round hcfg a st)))) /\
               (ignoreTimestamps hcfg = true ->
                Forall (fun ev => timestampLine ev = false)
                  (snd (fst (round hcfg a st))))) /\
                     (ignoreTimestamps hcfg = false ->
                      clock (fst (fst (round hcfg a st))) = clock st)).
    { unfold round. destruct (Validate _) as [e|].
      { simpl. repeat split; by repeat constructor. }
      destruct a as [[out|] [e|]|];
        try (simpl; repeat split; by repeat constructor).
      pose proof (Hbatch (Messages out) st) as ((Hents & Hlines) & Hclock).
      destruct (handleMessages hcfg (Messages out) st) as [[st1 ev1] status].
      simpl in *. repeat split; [done| |done].
      intros Hign. constructor; [done|]. by apply Hlines. }
    destruct (round hcfg a st) as [[st1 ev1] [|]]; [|done].
    specialize (IH st1).
    destruct (queueRunner hcfg arrivals st1) as [[st2 ev2] status2].
    simpl in *. destruct Hround as ((Hents1 & Hlines1) & Hclock1).
    destruct IH as ((Hents2 & Hlines2) & Hclock2).
    rewrite queue_processed_app. repeat split.
    + by apply Forall_app.
    + intros Hign. apply Forall_app. split; [by apply Hlines1|by apply Hlines2].
    + intros Hign. by rewrite (Hclock2 Hign), (Hclock1 Hign).
Qed.

Lemma queueRunner_app hcfg arrivals1 arrivals2 st :
  queueRunner hcfg (arrivals1 ++ arrivals2) st =
  match queueRunner hcfg arrivals1 st with
  | (st1, ev1, Returned) => (st1, ev1, Returned)
  | (st1, ev1, Looping) =>
      let '(st2, ev2, status) := queueRunner hcfg arrivals2 st1 in
      (st2, ev1 ++ ev2, status)
  end.
Proof.
  revert st. induction arrivals1 as [|a arrivals1 IH]; intros st; simpl.
  - by destruct (queueRunner hcfg arrivals2 st) as [[st2 ev2] status].
  - destruct (round hcfg a st) as [[st1 ev1] [|]]; [|done].
    rewrite IH.
    destruct (queueRunner hcfg arrivals1 st1) as [[st2 ev2] [|]]; [|done].
    destruct (queueRunner hcfg arrivals2 st2) as [[st3 ev3] status].
    by rewrite app_assoc.
Qed.

(** A failed receive is not retried: when the [select] gets the closing of
    [done], a receive error or a nil output, [queueRunner] returns in that
    round with the processor set and the clock as they were and no entry
    handed over, and later arrivals are not looked at. *)
Theorem receive_failure_ends_task hcfg a rest st :
  endsTask a = true ->
  snd (queueRunner hcfg (a :: rest) st) = Returned /\
  fst (fst (queueRunner hcfg (a :: rest) st)) = st /\
  processed (snd (fst (queueRunner hcfg (a :: rest) st))) = [] /\
  queueRunner hcfg (a :: rest) st = queueRunner hcfg [a] st.
Proof.
  intros Hends. cbn [queueRunner]. unfold round.
  destruct (Validate _) as [e|]; [done|].
  destruct a as [[out|] [e|]|]; done.
Qed.

End QueueRunLaws.

(** ** Discovery of the shards *)

Section DiscoveryLaws.
Import Shard Discovery.
Implicit Types (answers pre rest : list DescribeStreamResult)
  (shards : list Shard_).

Lemma pagesOf_cons_last r shards :
  continues r = true ->
  ShardId <$> last (shards ++ pagesOf [r]) =
  match r with
  | (streamdesc, None) => ShardId <$> last (Shards streamdesc)
  | (_, Some _) => ShardId <$> last shards
  end.
Proof.
  destruct r as [streamdesc [err|]]; simpl.
  - by rewrite !app_nil_r.
  - intros [_ Hne%negb_true_iff%bool_decide_eq_false]%andb_true_iff.
    rewrite app_nil_r, last_app.
    destruct (last (Shards streamdesc)) eqn:E; [done|].
    by apply last_None in E.
Qed.

(** While the answers are errors or pages that announce more, the loop goes
    on: it collects the shards of the pages in order, and the request it is
    about to make names the stream and starts after the last shard
    collected. *)
Lemma discover_continues name pre rest shards :
  Forall (fun r => continues r = true) pre ->
  fst (discover (pre ++ rest) (requestFor name shards) shards)
  = fst (discover rest (requestFor name (shards ++ pagesOf pre))
           (shards ++ pagesOf pre)) /\
  exists evs,
    snd (discover (pre ++ rest) (requestFor name shards) shards)
    = evs ++ snd (discover rest (requestFor name (shards ++ pagesOf pre))
                    (shards ++ pagesOf pre)) /\
    length (describesOf evs) = length pre.
Proof.
  intros Hall. revert shards.
  induction Hall as [|r pre Hr _ IH]; intros shards.
  - simpl. rewrite app_nil_r. split; [done|]. by exists [].
  - pose proof (pagesOf_cons_last r shards Hr) as Hcursor.
    assert (Hpages : forall l, l ++ pagesOf (r :: pre)
                               = (l ++ pagesOf [r]) ++ pagesOf pre).
    { intros l. unfold pagesOf. simpl. by rewrite app_nil_r, app_assoc. }
    rewrite Hpages.
    destruct r as [streamdesc [err|]]; simpl in *.
    + rewrite app_nil_r in *.
      destruct (IH shards) as (Ho & evs & Hev & Hlen).
      destruct (discover (pre ++ rest) _ shards) as [o tr]. simpl in *.
      split; [done|]. exists (EvDescribeStream (requestFor name shards)
                                :: EvLog err :: evs).
      rewrite Hev. simpl. by rewrite Hlen.
    + apply andb_true_iff in Hr as [-> Hne].
      apply negb_true_iff, bool_decide_eq_false in Hne.
      rewrite app_nil_r in *.
      destruct (last (Shards streamdesc)) as [sh|] eqn:Hlast;
        [|by apply last_None in Hlast].
      assert (Hreq : SetExclusiveStartShardId (ShardId sh) (requestFor name shards)
                     = requestFor name (shards ++ Shards streamdesc)).
      { unfold SetExclusiveStartShardId, requestFor. simpl. by rewrite Hcursor. }
      rewrite Hreq.
      destruct (IH (shards ++ Shards streamdesc)) as (Ho & evs & Hev & Hlen).
      destruct (discover (pre ++ rest) _ (shards ++ Shards streamdesc))
        as [o tr]. simpl in *.
      split; [done|]. exists (EvDescribeStream (requestFor name shards) :: evs).
      rewrite Hev. simpl. by rewrite Hlen.
Qed.

(** Discovery returns the shards of all pages in order: after any number of
    failed calls and pages that announce more, the first page that announces
    no more ends the loop with the shards of all the pages so far, one call
    having been made per answer; later answers are not asked for. *)
Theorem discovery_collects_all_pages name pre streamdesc rest :
  Forall (fun r => continues r = true) pre ->
  HasMoreShards streamdesc = false ->
  fst (discoverShards name (pre ++ (streamdesc, None) :: rest))
  = Found (pagesOf pre ++ Shards streamdesc) /\
  length (describesOf (snd (discoverShards name (pre ++ (streamdesc, None) :: rest))))
  = S (length pre).
Proof.
  intros Hpre Hlast. unfold discoverShards.
  change (mkDsi (Some name) None) with (requestFor name []).
  destruct (discover_continues name pre ((streamdesc, None) :: rest) [] Hpre)
    as (Ho & evs & Hev & Hlen).
  rewrite Ho, Hev. simpl. rewrite Hlast. simpl. split; [done|].
  assert (Happ : forall evs1 evs2,
             describesOf (evs1 ++ evs2) = describesOf evs1 ++ describesOf evs2).
  { intros evs1 evs2. induction evs1 as [|[dsi|err] evs1 IH1]; simpl;
      by rewrite ?IH1. }
  rewrite Happ, length_app, Hlen. simpl. lia.
Qed.

(** A page that announces more shards but holds none stops discovery with
    an index out of range, wherever it comes in the pagination. *)
Theorem discovery_panics_on_empty_page name pre streamdesc rest :
  Forall (fun r => continues r = true) pre ->
  HasMoreShards streamdesc = true ->
  Shards streamdesc = [] ->
  fst (discoverShards name (pre ++ (streamdesc, None) :: rest)) = OutOfRange.
Proof.
  intros Hpre Hmore Hnone. unfold discoverShards.
  change (mkDsi (Some name) None) with (requestFor name []).
  destruct (discover_continues name pre ((streamdesc, None) :: rest) [] Hpre)
    as (Ho & _).
  rewrite Ho. simpl. by rewrite Hmore, Hnone.
Qed.

(** While discovery goes on, the request it is about to make names the
    stream, and its exclusive start is the id of the last shard collected so
    far (none before the first page): a failed call is repeated as it
    was. *)
Theorem discovery_cursor_is_last_shard name answers :
  Forall (fun r => continues r = true) answers ->
  fst (discoverShards name answers)
  = Asking (mkDsi (Some name) (ShardId <$> last (pagesOf answers)))
      (pagesOf answers).
Proof.
  intros Hall. unfold discoverShards.
  change (mkDsi (Some name) None) with (requestFor name []).
  destruct (discover_continues name answers [] [] Hall) as (Ho & _).
  rewrite app_nil_r in Ho. rewrite Ho. reflexivity.
Qed.

End DiscoveryLaws.

(** ** The entries of the shard consumer *)

Section EntryLaws.
Import Shard Observe.
Context {P TG : Type} `{!ProcessorSet P, !TimeGrinder TG, !EntryLib}.
Implicit Types (c : Consumer P TG) (e : Env) (evs : list Event)
  (ticks : list Tick).

Lemma handleRecord_entry tag ip r (l : @LoopState P TG) :
  exists ts, processed (snd (handleRecord tag ip r l)) = [mkEntry ts ip tag (Data r)].
Proof.
  unfold handleRecord, chooseTS. destruct (lParse l); simpl.
  - destruct (Extract (lTg l) (Data r)) as [g' [[ts ok] err]].
    destruct (negb ok || bool_decide (err <> None));
      destruct (ProcessContext _ _) as [ps [perr|]]; simpl; eauto.
  - destruct (ProcessContext _ _) as [ps [perr|]]; simpl; eauto.
Qed.

Lemma handleRecords_entries tag ip recs (l : @LoopState P TG) :
  Forall (fun ent => Tag ent = tag /\ SRC ent = ip /\
                     EntData ent ∈ Data <$> recs)
    (processed (snd (handleRecords tag ip recs l))).
Proof.
  revert l. induction recs as [|r recs IH]; intros l; simpl; [constructor|].
  destruct (handleRecord_entry tag ip r l) as [ts Hent].
  destruct (handleRecord tag ip r l) as [l1 ev1]. specialize (IH l1).
  destruct (handleRecords tag ip recs l1) as [l2 ev2]. simpl in *.
  rewrite processed_app, Hent. simpl. constructor.
  - repeat split. apply list_elem_of_here.
  - eapply Forall_impl; [exact IH|]. intros ent (? & ? & Hin).
    repeat split; [done..|]. by apply list_elem_of_further.
Qed.

(** Over any run, every entry the consumer hands to its processor set
    carries the tag and the source address the consumer was started with,
    and its payload is the data of a record the service delivered. *)
Theorem entries_carry_tag_source_and_data ticks c :
  Forall (fun ent => Tag ent = tagid c /\ SRC ent = src c /\
                     EntData ent ∈ Data <$> flat_map delivered ticks)
    (processed (snd (run ticks c))).
Proof.
  revert c. induction ticks as [|t ticks IH]; intros c; simpl; [constructor|].
  assert (H1 : Forall (fun ent => Tag ent = tagid c /\ SRC ent = src c /\
                                  EntData ent ∈ Data <$> delivered t)
                 (processed (snd (tick t c)))).
  { destruct t as [e|]; [|constructor]. simpl.
    destruct (getsBatch_dec e c) as [[out Hb]|Hno].
    - destruct (step_batch e c out Hb) as (gri & iter & l & _ & _ & ->).
      pose proof (handleBatch_spec out iter l c) as (Hev & _).
      simpl in Hev. simpl. rewrite Hev, !processed_app.
      destruct Hb as [_ ->].
      assert (Hidle : processed
                        (if decide (length (Records out) = 0%nat)
                         then [EvSleep 100] else []) = [])
        by (by destruct (decide (length (Records out) = 0%nat))).
      assert (Hw : forall s, processed (writeEvents c s) = []).
      { intros s. unfold writeEvents. by destruct (decide (s = EmptyString)). }
      rewrite Hidle. simpl. rewrite Hw, app_nil_r.
      apply handleRecords_entries.
    - destruct (step_no_batch e c Hno) as (_ & _ & Hq & _).
      destruct (quiet_trace _ (tagid c) (src c) [] Hq) as (_ & -> & _).
      constructor. }
  pose proof (tick_sameIdentity t c) as (_ & _ & Htag & Hsrc).
  destruct (tick t c) as [c1 ev1]. specialize (IH c1).
  destruct (run ticks c1) as [c2 ev2]. simpl in *.
  rewrite processed_app, fmap_app. apply Forall_app. split.
  - eapply Forall_impl; [exact H1|]. intros ent (? & ? & Hin).
    repeat split; [done..|]. apply elem_of_app. by left.
  - eapply Forall_impl; [exact IH|]. intros ent (? & ? & Hin).
    repeat split; [congruence..|]. apply elem_of_app. by right.
Qed.

End EntryLaws.

(** ** The further properties on concrete inputs *)

Section ShardExamples.
Import Shard Observe Sample.

Lemma state_file_as_of_last_flush_witness :
  persistedToken
    (fst (run ([gotIterator "it0"; gotRecords batch101_105 "it1"]
               ++ FlushTimer :: [gotRecords [record "106" "f" 6] "it2"])
            (consumer0 file100)))
  = "105".
Proof.
  rewrite (state_file_as_of_last_flush
             [gotIterator "it0"; gotRecords batch101_105 "it1"]
             [gotRecords [record "106" "f" 6] "it2"] (consumer0 file100)).
  - reflexivity.
  - repeat constructor; discriminate.
Defined.

Lemma run_keeps_other_tokens_witness :
  Stateman.current "s" "shard-1"
    (stateMan (fst (run [gotIterator "it0"; gotRecords batch101_105 "it1"]
                      (consumer0 fileTwo))))
  = "7".
Proof.
  rewrite (run_keeps_other_tokens
             [gotIterator "it0"; gotRecords batch101_105 "it1"]
             (consumer0 fileTwo) "s" "shard-1").
  - reflexivity.
  - intros [_ Hshard]. discriminate Hshard.
Defined.

Lemma stored_token_provenance_witness :
  let ticks := [gotIterator "it0"; gotRecords batch101_105 "it1"] in
  storedToken (fst (run ticks (consumer0 file100)))
  = storedToken (consumer0 file100) \/
  (storedToken (fst (run ticks (consumer0 file100))) <> EmptyString /\
   storedToken (fst (run ticks (consumer0 file100))) ∈ deliveredTokens ticks).
Proof.
  intros ticks. apply (stored_token_provenance ticks (consumer0 file100)).
  vm_compute. exact I.
Defined.

Lemma shutdown_is_final_witness :
  let c := fst (run [gotIterator "it0"] (consumer0 file100)) in
  let r := run (Source stopEnv :: [gotRecords batch101_105 "it1"]) c in
  closes (snd r) = 1%nat /\ processed (snd r) = [] /\ phase (fst r) = Closed.
Proof.
  intros c r.
  destruct (shutdown_is_final [gotRecords batch101_105 "it1"] stopEnv c
              "it0" EmptyString eq_refl eq_refl)
    as (_ & Hcl & _ & Hpr & Hph & _).
  by repeat split.
Defined.

Lemma retry_in_place_witness :
  let c := fst (run [gotIterator "it0";
                     Source (failEnv true
                               ErrCodeProvisionedThroughputExceededException)]
                  (consumer0 file100)) in
  let es := [failEnv false ErrCodeProvisionedThroughputExceededException;
             brokenEnv; failEnv false "InternalFailure"] in
  getRecordsOf (snd (run (Source <$> es) c))
  = replicate 3 (mkGri (Some 5000) (Some "it0")) /\
  sleeps (snd (run (Source <$> es) c)) = [500; 500].
Proof.
  intros c es.
  destruct (retry_in_place es c (mkGri (Some 5000) (Some "it0")) "it0"
              EmptyString eq_refl)
    as (_ & Hreq & Hsl & _).
  - repeat constructor.
  - by split.
Defined.

Lemma acquire_retries_witness :
  let es := [refusalEnv; nilIteratorEnv] in
  phase (fst (run (Source <$> es) (consumer0 file100))) = Acquiring /\
  sleeps (snd (run (Source <$> es) (consumer0 file100))) = [5000; 5000].
Proof.
  intros es.
  destruct (acquire_retries es (consumer0 file100) eq_refl)
    as (Hph & _ & Hsl & _).
  - repeat constructor.
  - by split.
Defined.

Lemma next_iterator_follows_response_witness :
  let c := fst (run [gotIterator "it0"] (consumer0 file100)) in
  nextRequest (fst (step (batchEnv batch101_105 "it1") c))
  = Some (mkGri (Some 5000) (Some "it1")).
Proof.
  intros c.
  apply (next_iterator_follows_response (batchEnv batch101_105 "it1") c
           "it0" EmptyString (batchOutput batch101_105 "it1")
           eq_refl eq_refl eq_refl).
Defined.

Lemma batch_hands_over_every_record_witness :
  let c := fst (run [gotIterator "it0"] (consumer0 file100)) in
  length (processed (snd (step (batchEnv batchWithReject "it1") c))) = 3%nat.
Proof.
  intros c.
  apply (batch_hands_over_every_record (batchEnv batchWithReject "it1") c
           (batchOutput batchWithReject "it1")).
  split; reflexivity.
Defined.

Lemma parsing_off_never_extracts_witness :
  Parse_Time
    (stream (fst (run [gotIterator "it0"; gotRecords batch101_105 "it1"]
                    (consumer0 file100))))
  = false.
Proof.
  apply (parsing_off_never_extracts
           [gotIterator "it0"; gotRecords batch101_105 "it1"]
           (consumer0 file100)).
  reflexivity.
Defined.

Lemma checkpoint_writes_are_own_witness :
  "s" = Stream_Name (stream (consumer0 file100)) /\
  "shard-0" = ShardId (shard (consumer0 file100)) /\
  "105" <> EmptyString.
Proof.
  apply (checkpoint_writes_are_own
           [gotIterator "it0"; gotRecords batch101_105 "it1"]
           (consumer0 file100) "s" "shard-0" "105").
  vm_compute.
  repeat (first [apply list_elem_of_here | apply list_elem_of_further]).
Defined.

End ShardExamples.

Section QueueExamples.
Import Queue QueueObserve Sample.

Lemma unparsable_timestamp_entry_still_sent_witness :
  processed
    (snd (fst (handleMessages hcfg0 [stamped "a"; garbled "b"; stamped "c"]
                 qstate0)))
  = [mkEntry (mkTimestamp 1600000000 0) None 2 (bytes "a");
     mkEntry zeroTimestamp None 2 (bytes "b");
     mkEntry (mkTimestamp 1600000000 0) None 2 (bytes "c")].
Proof.
  rewrite (unparsable_timestamp_entry_still_sent hcfg0
             [stamped "a"] (garbled "b") [stamped "c"] qstate0 "soon")
    by reflexivity.
  reflexivity.
Defined.

Lemma parsed_timestamp_is_truncated_to_seconds_witness :
  processed
    (snd (fst (handleMessages hcfg0
                 ([unstamped "a"]
                  ++ mkMessage "b" {[ "SentTimestamp" := "5000" ]} :: [])
                 qstate0)))
  = [mkEntry zeroTimestamp None 2 (bytes "a");
     mkEntry (mkTimestamp 5 0) None 2 (bytes "b")].
Proof.
  rewrite (parsed_timestamp_is_truncated_to_seconds hcfg0
             [unstamped "a"] (mkMessage "b" {[ "SentTimestamp" := "5000" ]})
             [] qstate0 "5000" 5000) by reflexivity.
  reflexivity.
Defined.

Lemma receive_failure_ends_task_witness :
  snd (queueRunner hcfg0
         [Answer None (Some (PlainError "timeout"));
          Answer (Some (mkReceiveMessageOutput [stamped "a"])) None]
         qstate0)
  = Returned.
Proof.
  apply (receive_failure_ends_task hcfg0
           (Answer None (Some (PlainError "timeout")))
           [Answer (Some (mkReceiveMessageOutput [stamped "a"])) None]
           qstate0).
  reflexivity.
Defined.

End QueueExamples.

Section DiscoveryExamples.
Import Shard Discovery Sample.

Lemma discovery_collects_all_pages_witness :
  fst (discoverShards "s"
         ([pageFailed; pageMore; pageFailed] ++ (pageLast, None) :: [pageMore]))
  = Found [shard0; closedShard; shard2].
Proof.
  apply (discovery_collects_all_pages "s" [pageFailed; pageMore; pageFailed]
           pageLast [pageMore]).
  - repeat constructor.
  - reflexivity.
Defined.

Lemma discovery_panics_on_empty_page_witness :
  fst (discoverShards "s" ([pageMore] ++ (pageEmptyMore, None) :: []))
  = OutOfRange.
Proof.
  apply (discovery_panics_on_empty_page "s" [pageMore] pageEmptyMore []).
  - repeat constructor.
  - reflexivity.
  - reflexivity.
Defined.

Lemma discovery_cursor_is_last_shard_witness :
  fst (discoverShards "s" [pageMore; pageFailed])
  = Asking (mkDsi (Some "s") (Some "shard-1")) [shard0; closedShard].
Proof.
  apply (discovery_cursor_is_last_shard "s" [pageMore; pageFailed]).
  repeat constructor.
Defined.

End DiscoveryExamples.
